(** * mmlatex: indented outline to TikZ mind map

    A shallow embedding of [mmlatex.py].  Python strings are sequences of
    Unicode code points; they are modelled as lists of code points ([N]).
    Python integers that count things (depths, lengths, the angle cursor)
    are natural numbers. *)

From Stdlib Require Import List Arith Lia NArith Bool.
From Stdlib Require Import Strings.Ascii Numbers.DecimalString.
From Stdlib Require Strings.String.
Import ListNotations String.StringSyntax.

Set Implicit Arguments.

(** ** Python strings *)

Definition char := N.
Definition str := list char.

Delimit Scope string_scope with string.

(** A literal: the code points of an ASCII text. *)
Definition py (s : String.string) : str :=
  map N_of_ascii (String.list_ascii_of_string s).
Arguments py s%_string.

Definition LF : char := 10%N.
Definition SPACE : char := 32%N.
Definition NBSP : char := 160%N.
Definition BACKSLASH : char := 92%N.
Definition AMPERSAND : char := 38%N.
Definition PERCENT : char := 37%N.
Definition UNDERSCORE : char := 95%N.

(** [str.isspace] on one code point: the characters removed by [strip()]
    and [rstrip()] when called without argument. *)
Definition isspace (c : char) : bool :=
  ((9 <=? c) && (c <=? 13) || (28 <=? c) && (c <=? 32)
   || (c =? 133) || (c =? 160) || (c =? 5760)
   || (8192 <=? c) && (c <=? 8202)
   || (c =? 8232) || (c =? 8233) || (c =? 8239) || (c =? 8287)
   || (c =? 12288))%N.

Fixpoint drop_while (p : char -> bool) (s : str) : str :=
  match s with
  | [] => []
  | c :: s' => if p c then drop_while p s' else s
  end.

(** [s.lstrip()] and [s.lstrip(chars)]. *)
Definition lstrip (s : str) : str := drop_while isspace s.

Definition lstrip_chars (chars s : str) : str :=
  drop_while (fun c => existsb (N.eqb c) chars) s.

(** [s.rstrip()]: the trailing run of whitespace is removed. *)
Fixpoint rstrip (s : str) : str :=
  match s with
  | [] => []
  | c :: s' =>
      match rstrip s' with
      | [] => if isspace c then [] else [c]
      | r => c :: r
      end
  end.

(** [s.strip()]. *)
Definition strip (s : str) : str := rstrip (lstrip s).

Fixpoint starts_with (p s : str) : bool :=
  match p, s with
  | [], _ => true
  | _ :: _, [] => false
  | a :: p', b :: s' => (a =? b)%N && starts_with p' s'
  end.

(** [s.replace(old, new)]: every occurrence of [old], found left to right
    without overlap, becomes [new].  [skip] counts the characters of a
    match that are still to be passed over. *)
Fixpoint replace_from (old new s : str) (skip : nat) : str :=
  match s with
  | [] => []
  | c :: s' =>
      match skip with
      | S k => replace_from old new s' k
      | O =>
          if starts_with old s
          then new ++ replace_from old new s' (length old - 1)
          else c :: replace_from old new s' 0
      end
  end.

Definition replace (old new s : str) : str :=
  match old with
  | [] => new ++ flat_map (fun c => c :: new) s
  | _ :: _ => replace_from old new s 0
  end.

(** [s.split(sep, 1)] for a non-empty separator: the text before the first
    occurrence of [sep], and the text after it when there is one. *)
Fixpoint split_once (sep s : str) : str * option str :=
  match s with
  | [] => ([], None)
  | c :: s' =>
      if starts_with sep s then ([], Some (skipn (length sep) s))
      else let (before, after) := split_once sep s' in (c :: before, after)
  end.

(** [pattern in s]. *)
Fixpoint occurs (pattern s : str) : bool :=
  starts_with pattern s
  || match s with
     | [] => false
     | _ :: s' => occurs pattern s'
     end.

(** [piece * n]. *)
Fixpoint times (piece : str) (n : nat) : str :=
  match n with
  | O => []
  | S k => piece ++ times piece k
  end.

(** [sep.join(parts)]. *)
Fixpoint join (sep : str) (parts : list str) : str :=
  match parts with
  | [] => []
  | [p] => p
  | p :: ps => p ++ sep ++ join sep ps
  end.

(** [str(n)] for a non-negative integer. *)
Definition str_of_nat (n : nat) : str :=
  py (NilZero.string_of_uint (Nat.to_uint n)).

(** ** Configuration *)

Definition INDENT_SPACES : nat := 4.

Definition LEVEL_1_ANGLES : list nat := [150; 30; 270; 210; 90; 330].

(** ** LaTeX template sections *)

(** A raw triple-quoted block: a newline, then every line with its newline. *)
Definition raw_block (lines : list String.string) : str :=
  LF :: flat_map (fun l => py l ++ [LF]) lines.

Open Scope string_scope.

Definition LATEX_START_TEMPLATE : str :=
  raw_block [
    "\documentclass[11pt, a4paper]{article}";
    "\usepackage[a4paper, margin=1in]{geometry}";
    "\usepackage{tikz}";
    "\usepackage{fontspec}";
    "\usepackage[english]{babel}";
    "\usepackage{longtable} ";
    "\usepackage{booktabs}";
    String.EmptyString;
    "% Use Noto Sans for clean, modern look";
    "\babelfont{rm}{Noto Sans} ";
    String.EmptyString;
    "% FIXED: Loaded 'babel' library to prevent conflicts with TikZ syntax";
    "\usetikzlibrary{mindmap, trees, shadows, babel}";
    String.EmptyString;
    "\pagestyle{empty} ";
    String.EmptyString;
    "\begin{document}";
    "\centering";
    "\section*{Project Phases Mind Map}";
    String.EmptyString;
    "\begin{tikzpicture}[";
    "    mindmap,";
    "    grow cyclic, ";
    "    text=white,";
    "    concept color=blue!70!black, ";
    "    every node/.style={concept, minimum width=2.5cm, align=center, font=\large},";
    "    level 1 concept/.append style={";
    "        level distance=4cm, ";
    "        sibling angle=120, ";
    "        concept color=red!70, ";
    "        font=\Large\bfseries";
    "    },";
    "    level 2 concept/.append style={";
    "        level distance=3.5cm, ";
    "        sibling angle=60, ";
    "        concept color=orange!70,";
    "        font=\large\sffamily";
    "    },";
    "    level 3 concept/.append style={";
    "        level distance=3cm, ";
    "        sibling angle=45, ";
    "        concept color=green!70!black,";
    "        font=\small\sffamily";
    "    },";
    "]";
    String.EmptyString;
    "  % START OF TIKZ NODES"
  ].

Definition TIKZ_END : str :=
  raw_block [
    "  ; % End of the main node structure";
    String.EmptyString;
    "\end{tikzpicture}";
    String.EmptyString;
    "\vspace{0.5in}";
    "\footnotesize";
    "\textit{This mind map was generated from an indented text file using a Python script.}"
  ].

Definition LATEX_END : str :=
  raw_block [
    String.EmptyString;
    "\end{document}"
  ].


Close Scope string_scope.

(** ** Outline parser *)

Definition get_indentation_level (line : str) : nat :=
  let clean_line := replace [NBSP] [SPACE] line in
  let leading_spaces :=
    length clean_line - length (lstrip_chars [SPACE] clean_line) in
  leading_spaces / INDENT_SPACES.

Definition parse_line (line : str) : str * str :=
  let full_text := strip line in
  let parts := split_once (py " - ") full_text in
  let concept_text := strip (fst parts) in
  let description :=
    match snd parts with
    | Some rest => strip rest
    | None => []
    end in
  (concept_text, description).

(** ** Table renderer *)

(** One entry of [table_data]: a dict with the keys ['node'] and ['desc']. *)
Record item := Item { node : str; desc : str }.

Open Scope string_scope.

Definition table_head : list str :=
  map py [
    "\newpage";
    "\section*{Mind Map Node Descriptions}";
    "{\centering";
    "\begin{longtable}{@{} p{0.3\textwidth} p{0.6\textwidth} @{}}";
    "    \caption{Node Details and Descriptions} \label{tab:node_details} \\";
    "    \toprule";
    "    \textbf{Node Name} & \textbf{Description} \\";
    "    \midrule";
    "    \endfirsthead";
    String.EmptyString;
    "    \multicolumn{2}{c}";
    "    {\normalfont\textbf{\tablename~\thetable\ -- continued}} \\";
    "    \toprule";
    "    \textbf{Node Name} & \textbf{Description} \\";
    "    \midrule";
    "    \endhead"
  ].

Close Scope string_scope.

(** The escaping of one table cell: four [replace] calls in a row. *)
Definition escape_cell (s : str) : str :=
  replace [UNDERSCORE] (py "\_")
    (replace [PERCENT] (py "\%")
      (replace [AMPERSAND] (py "\&")
        (replace [BACKSLASH] (py "\textbackslash ") s))).

(** The row of one item. *)
Definition table_row (it : item) : str :=
  let node_name := escape_cell (node it) in
  let description := escape_cell (desc it) in
  py "    " ++ node_name ++ py " & " ++ description ++ py " \\".

Definition table_rows (data : list item) : list str := map table_row data.

Definition table_lines (data : list item) : list str :=
  table_head
  ++ flat_map (fun it => [table_row it; py "    \midrule"]) data
  ++ [py "    \bottomrule"; py "\end{longtable}"; py "}"].

Definition generate_latex_table (data : list item) : str :=
  [LF] ++ join [LF] (table_lines data) ++ [LF].

(** ** Tree markup emitter *)

(** The strings appended to [tikz_nodes], one constructor per [append] of
    the source, with the values the string is built from. *)
Inductive chunk :=
| Closing (depth brackets_to_close : nat)
| ChildGrow (depth angle : nat)
| Child (depth : nat)
| Concept (depth : nat) (safe_concept : str)
| Remaining (current_depth : nat).

Definition render (c : chunk) : str :=
  match c with
  | Closing depth brackets_to_close =>
      times (py "    ") depth ++ times (py "} ") brackets_to_close ++ [LF]
  | ChildGrow depth angle =>
      times (py "    ") depth
      ++ py "child[grow=" ++ str_of_nat angle ++ py "] {" ++ [LF]
  | Child depth =>
      times (py "    ") depth ++ py "child {" ++ [LF]
  | Concept depth safe_concept =>
      times (py "    ") (depth + 1)
      ++ py "node[concept] {" ++ safe_concept ++ py "}"
  | Remaining current_depth =>
      times (py "} ") current_depth
  end.

(** The variables of [generate_tikz_code] that the loop updates. *)
Record emitter := Emitter {
  tikz_nodes : list chunk;
  table_data : list item;
  current_depth : nat;
  angle_index : nat
}.

(** Root node: its table entry and its definition. *)
Definition root_item (line0 : str) : item :=
  let root_line := rstrip line0 in
  let (root_concept, root_description) := parse_line root_line in
  Item root_concept root_description.

Definition root_node_definition (line0 : str) : str :=
  let root_concept := node (root_item line0) in
  let safe_root :=
    replace [PERCENT] (py "\%") (replace [AMPERSAND] (py "\&") root_concept) in
  let formatted_root := replace [SPACE] (py "\\ ") safe_root in
  [LF] ++ py "  \node[concept] { \textbf{" ++ formatted_root ++ py "} }".

Definition after_root (line0 : str) : emitter :=
  Emitter [] [root_item line0] 0 0.

(** The depth given to a child line: at least 1, at most one more than the
    depth of the node before it. *)
Definition child_depth (current_depth : nat) (line : str) : nat :=
  let raw_depth := get_indentation_level line in
  let depth := Nat.max 1 raw_depth in
  if current_depth + 1 <? depth then current_depth + 1 else depth.

Definition safe_concept_of (concept_text : str) : str :=
  replace [UNDERSCORE] (py "\_")
    (replace [PERCENT] (py "\%")
      (replace [AMPERSAND] (py "\&") concept_text)).

(** The strings one child node appends. *)
Definition closing_chunks (current_depth depth : nat) : list chunk :=
  if depth <=? current_depth
  then [Closing depth ((current_depth - depth) + 1)]
  else [].

Definition opening_chunk (depth angle_index : nat) : chunk :=
  if depth =? 1
  then ChildGrow depth
         (nth (angle_index mod length LEVEL_1_ANGLES) LEVEL_1_ANGLES 0)
  else Child depth.

(** One turn of the loop over [lines_to_process]. *)
Definition process_line (e : emitter) (line0 : str) : emitter :=
  let line := rstrip line0 in
  match strip line with
  | [] => e
  | _ :: _ =>
      let depth := child_depth (current_depth e) line in
      let (concept_text, description) := parse_line line in
      let safe_concept := safe_concept_of concept_text in
      Emitter
        (tikz_nodes e
         ++ closing_chunks (current_depth e) depth
         ++ [opening_chunk depth (angle_index e); Concept depth safe_concept])
        (table_data e ++ [Item concept_text description])
        depth
        (if depth =? 1 then angle_index e + 1 else angle_index e)
  end.

Definition close_remaining (e : emitter) : list chunk :=
  if 0 <? current_depth e
  then tikz_nodes e ++ [Remaining (current_depth e)]
  else tikz_nodes e.

(** The emitter after the whole loop; [None] for the empty input, where
    the function returns before the emitter is used. *)
Definition run (lines : list str) : option emitter :=
  match lines with
  | [] => None
  | line0 :: lines_to_process =>
      Some (fold_left process_line lines_to_process (after_root line0))
  end.

Definition generate_tikz_code (lines : list str) : str :=
  match lines with
  | [] => []
  | line0 :: lines_to_process =>
      let e := fold_left process_line lines_to_process (after_root line0) in
      let tikz_code_body := concat (map render (close_remaining e)) in
      let latex_table := generate_latex_table (table_data e) in
      LATEX_START_TEMPLATE ++ root_node_definition line0
      ++ tikz_code_body ++ TIKZ_END ++ latex_table ++ LATEX_END
  end.

(** [main], from the lines read to the text written. *)
Definition main (input_lines : list str) : str :=
  match input_lines with
  | [] => LATEX_START_TEMPLATE ++ [LF] ++ LATEX_END
  | _ :: _ => generate_tikz_code input_lines
  end.

(** The strings emitted for an input: the content of [tikz_nodes] when the
    function returns (nothing for the empty input). *)
Definition emitted (lines : list str) : list chunk :=
  match run lines with
  | Some e => close_remaining e
  | None => []
  end.

(** ** Reading the emitted branch structure *)

(** Branch openings: the number of [child ... {] strings. *)
Definition opens_of (c : chunk) : nat :=
  match c with
  | ChildGrow _ _ | Child _ => 1
  | _ => 0
  end.

(** Branch closings: the number of [}] written by a closing string. *)
Definition closes_of (c : chunk) : nat :=
  match c with
  | Closing _ n | Remaining n => n
  | _ => 0
  end.

Definition opened (cs : list chunk) : nat := list_sum (map opens_of cs).
Definition closed (cs : list chunk) : nat := list_sum (map closes_of cs).

(** The number of branches left open by the strings [cs], read in order
    from [open] open branches; [None] when a closing finds too few open
    branches. *)
Fixpoint nesting (open : nat) (cs : list chunk) : option nat :=
  match cs with
  | [] => Some open
  | c :: cs' =>
      if closes_of c <=? open
      then nesting (open - closes_of c + opens_of c) cs'
      else None
  end.

(** The braces of the text: occurrences of one character. *)
Definition count_char (c : char) (s : str) : nat :=
  length (filter (N.eqb c) s).

Definition LBRACE : char := 123%N.
Definition RBRACE : char := 125%N.

(** A string that is not the content of a node, or is one with a label
    free of braces. *)
Definition plain_label (c : chunk) : Prop :=
  match c with
  | Concept _ s => count_char LBRACE s = 0 /\ count_char RBRACE s = 0
  | _ => True
  end.

Definition concepts_of (c : chunk) : nat :=
  match c with
  | Concept _ _ => 1
  | _ => 0
  end.

(** The branches opened, in order: depth and explicit angle, if any. *)
Definition branch_of (c : chunk) : option (nat * option nat) :=
  match c with
  | ChildGrow d a => Some (d, Some a)
  | Child d => Some (d, None)
  | _ => None
  end.

Fixpoint branches (cs : list chunk) : list (nat * option nat) :=
  match cs with
  | [] => []
  | c :: cs' =>
      match branch_of c with
      | Some b => b :: branches cs'
      | None => branches cs'
      end
  end.

Definition top_level (cs : list chunk) : list (nat * option nat) :=
  filter (fun b => fst b =? 1) (branches cs).

(** The depth of every child node, in order. *)
Fixpoint concept_depths (cs : list chunk) : list nat :=
  match cs with
  | [] => []
  | Concept d _ :: cs' => d :: concept_depths cs'
  | _ :: cs' => concept_depths cs'
  end.

(** The depth of every node: the root, then the children. *)
Definition node_depths (lines : list str) : list nat :=
  match lines with
  | [] => []
  | line0 :: _ => current_depth (after_root line0) :: concept_depths (emitted lines)
  end.

(** The content of [table_data] when the function returns. *)
Definition table_of (lines : list str) : list item :=
  match run lines with
  | Some e => table_data e
  | None => []
  end.

(** The table entry of a line, as both the root and the loop build it. *)
Definition item_of (line0 : str) : item :=
  let line := rstrip line0 in
  Item (fst (parse_line line)) (snd (parse_line line)).

(** The table block of the output (absent for the empty input). *)
Definition table_block (lines : list str) : str :=
  match run lines with
  | Some e => generate_latex_table (table_data e)
  | None => []
  end.

(** ** Inputs used as examples *)

(** The outline of the specification's scenario, indented by 2 and 4. *)
Definition scenario : list str :=
  [py "Root"; py "  ChildA - descA"; py "    GrandchildA"; py "  ChildB"].

(** The same outline indented by 4 and 8. *)
Definition scenario_by_four : list str :=
  [py "Root"; py "    ChildA - descA"; py "        GrandchildA";
   py "    ChildB"].

(** A file whose first line is empty: the lines [readlines] gives for the
    two-line text made of an empty line and the line [A]. *)
Definition blank_first : list str := [[LF]; py "A" ++ [LF]].

(** ** Words of the specification *)

(** A blank line: nothing but whitespace. *)
Definition is_blank (line : str) : bool := forallb isspace line.

Definition non_blank_lines (lines : list str) : list str :=
  filter (fun l => negb (is_blank l)) lines.

Fixpoint count_while (p : char -> bool) (s : str) : nat :=
  match s with
  | [] => 0
  | c :: s' => if p c then S (count_while p s') else 0
  end.

(** Leading spaces of a line, a non-breaking space counting as a space. *)
Definition leading_spaces (line : str) : nat :=
  count_while (fun c => (c =? SPACE)%N || (c =? NBSP)%N) line.

(** The depth rule in the words of the specification. *)
Definition clamped_depth (previous_node_depth : nat) (line : str) : nat :=
  Nat.min (Nat.max 1 (leading_spaces line / 4)) (previous_node_depth + 1).

Fixpoint clamped_depths (previous_node_depth : nat) (lines : list str)
  : list nat :=
  match lines with
  | [] => []
  | l :: ls =>
      let d := clamped_depth previous_node_depth l in
      d :: clamped_depths d ls
  end.

(** Two lines that the parser reads alike: same label, same indentation
    level. *)
Definition parsed_alike (l1 l2 : str) : Prop :=
  fst (parse_line l1) = fst (parse_line l2)
  /\ get_indentation_level l1 = get_indentation_level l2.

(** Two emitters that agree on everything but the descriptions. *)
Definition same_visible (e1 e2 : emitter) : Prop :=
  tikz_nodes e1 = tikz_nodes e2
  /\ current_depth e1 = current_depth e2
  /\ angle_index e1 = angle_index e2
  /\ map node (table_data e1) = map node (table_data e2).

(** The escaping of one character of a table cell. *)
Definition escape_char (c : char) : str :=
  if (c =? BACKSLASH)%N then py "\textbackslash "
  else if (c =? AMPERSAND)%N then py "\&"
  else if (c =? PERCENT)%N then py "\%"
  else if (c =? UNDERSCORE)%N then py "\_"
  else [c].

(** ** Invariants of the loop *)

(** The number of open branches is the current depth. *)
Definition balanced (e : emitter) : Prop :=
  opened (tikz_nodes e) = closed (tikz_nodes e) + current_depth e.

(** Read in order, the strings emitted so far never close a branch that is
    not open, and leave [current_depth] branches open. *)
Definition nested (e : emitter) : Prop :=
  nesting 0 (tikz_nodes e) = Some (current_depth e).

(** The angle read by the [k]-th use of the cursor. *)
Definition angle_at (k : nat) : nat :=
  nth (k mod length LEVEL_1_ANGLES) LEVEL_1_ANGLES 0.

(** The top-level branches carry the angles read so far, in order, and
    no deeper branch carries one. *)
Definition angles_tracked (e : emitter) : Prop :=
  top_level (tikz_nodes e) =
    map (fun k => (1, Some (angle_at k))) (seq 0 (angle_index e))
  /\ Forall (fun b => 1 <= fst b /\ (1 < fst b -> snd b = None))
       (branches (tikz_nodes e)).

(** Each depth of a clamped run is at least 1 and at most one more than
    the depth before it. *)
Fixpoint steps_ok (previous : nat) (depths : list nat) : Prop :=
  match depths with
  | [] => True
  | d :: ds => 1 <= d /\ d <= previous + 1 /\ steps_ok d ds
  end.

(** ** Further readings of the lines and of the text *)

(** An indentation character: a space or a non-breaking space. *)
Definition is_indent (c : char) : bool := (c =? SPACE)%N || (c =? NBSP)%N.

(** An outline whose non-blank lines are each indented by at least one
    level and by at most one level more than the line before. *)
Fixpoint well_indented (previous : nat) (lines : list str) : Prop :=
  match lines with
  | [] => True
  | l :: ls =>
      1 <= get_indentation_level l <= previous + 1
      /\ well_indented (get_indentation_level l) ls
  end.

(** The escaping of one character of the label of a child node, and of
    the label of the root. *)
Definition tikz_char (c : char) : str :=
  if (c =? AMPERSAND)%N || (c =? PERCENT)%N || (c =? UNDERSCORE)%N
  then [BACKSLASH; c]
  else [c].

Definition root_char (c : char) : str :=
  if (c =? AMPERSAND)%N || (c =? PERCENT)%N then [BACKSLASH; c]
  else if (c =? SPACE)%N then [BACKSLASH; BACKSLASH; SPACE]
  else [c].

(** Reading a LaTeX text from left to right: whether the next character
    is escaped, that is, comes right after a backslash that is not itself
    escaped. *)
Fixpoint escape_state (escaped : bool) (s : str) : bool :=
  match s with
  | [] => escaped
  | x :: s' => escape_state ((x =? BACKSLASH)%N && negb escaped) s'
  end.

(** The occurrences of [c] that are not escaped. *)
Fixpoint bare_count (c : char) (escaped : bool) (s : str) : nat :=
  match s with
  | [] => 0
  | x :: s' =>
      (if (x =? c)%N && negb escaped then 1 else 0)
      + bare_count c ((x =? BACKSLASH)%N && negb escaped) s'
  end.

(** Reading an escaped table cell back: a backslash followed by one of
    the three signs stands for the sign, any other backslash starts the
    fifteen characters that stand for a backslash. *)
Fixpoint unescape (skip : nat) (s : str) : str :=
  match s with
  | [] => []
  | c :: s' =>
      match skip with
      | S k => unescape k s'
      | O =>
          if (c =? BACKSLASH)%N then
            match s' with
            | x :: _ =>
                if (x =? AMPERSAND)%N || (x =? PERCENT)%N || (x =? UNDERSCORE)%N
                then x :: unescape 1 s'
                else BACKSLASH :: unescape 14 s'
            | [] => [c]
            end
          else c :: unescape 0 s'
      end
  end.

(** One branch, one node and one table entry for each line kept, and a
    current depth below the number of entries. *)
Definition counted (e : emitter) : Prop :=
  opened (tikz_nodes e) + 1 = length (table_data e)
  /\ length (concept_depths (tikz_nodes e)) + 1 = length (table_data e)
  /\ current_depth e + 1 <= length (table_data e).

(** The label written for every child node, in order. *)
Fixpoint concept_labels (cs : list chunk) : list str :=
  match cs with
  | [] => []
  | Concept _ s :: cs' => s :: concept_labels cs'
  | _ :: cs' => concept_labels cs'
  end.

(** Every node written so far comes after strings that leave as many
    branches open as its depth. *)
Definition nodes_nested (cs : list chunk) : Prop :=
  forall pre d s post,
    cs = pre ++ Concept d s :: post -> nesting 0 pre = Some d.

(** ** Reading the strings written *)

(** The strings that [tikz_nodes] holds when the function returns, in the
    order of their [append]: joined, they are the text of the branches. *)
Definition tikz_texts (lines : list str) : list str :=
  map render (emitted lines).

(** The spaces at the start of a string, and what follows them. *)
Definition indent_of (s : str) : nat := count_while (N.eqb SPACE) s.
Definition after_indent (s : str) : str := drop_while (N.eqb SPACE) s.

(** A string that opens a branch starts, after its indentation, with
    [child]; one that closes branches with a closing brace; the content of
    a node with [node[concept] {]. *)
Definition is_opening_text (s : str) : bool :=
  starts_with (py "child") (after_indent s).

Definition is_closing_text (s : str) : bool :=
  starts_with [RBRACE] (after_indent s).

Definition is_node_text (s : str) : bool :=
  starts_with (py "node[concept] {") (after_indent s).

(** The branches that a string opens, and those that it closes: one for
    each closing brace of a closing string. *)
Definition text_opens (s : str) : nat :=
  if is_opening_text s then 1 else 0.

Definition text_closes (s : str) : nat :=
  if is_closing_text s then count_char RBRACE s else 0.

Definition text_opened (texts : list str) : nat :=
  list_sum (map text_opens texts).

Definition text_closed (texts : list str) : nat :=
  list_sum (map text_closes texts).

(** The branches left open by the strings [texts], read in order from
    [open] open branches; [None] when a string closes more branches than
    are open. *)
Fixpoint text_nesting (open : nat) (texts : list str) : option nat :=
  match texts with
  | [] => Some open
  | s :: texts' =>
      if text_closes s <=? open
      then text_nesting (open - text_closes s + text_opens s) texts'
      else None
  end.

(** The strings that open a branch right under the root: those indented
    by one level. *)
Definition top_level_texts (texts : list str) : list str :=
  filter (fun s => is_opening_text s && (indent_of s =? 4)) texts.

Definition node_texts (texts : list str) : list str :=
  filter is_node_text texts.

(** The content of a node of depth [d], as the loop writes it for the line
    [l]. *)
Definition node_text (d : nat) (l : str) : str :=
  times (py "    ") (d + 1)
  ++ py "node[concept] {" ++ flat_map tikz_char (fst (parse_line l))
  ++ py "}".

(** The string that opens a branch of depth [fst b], with the angle
    [snd b] when there is one. *)
Definition branch_text (b : nat * option nat) : str :=
  match snd b with
  | Some angle =>
      times (py "    ") (fst b)
      ++ py "child[grow=" ++ str_of_nat angle ++ py "] {" ++ [LF]
  | None => times (py "    ") (fst b) ++ py "child {" ++ [LF]
  end.

(** ** Lines that differ in their description *)

(** Two lines that are one text up to and with its first delimiter,
    followed by two descriptions. *)
Definition differs_after_delimiter (a b : str) : Prop :=
  exists prefix d1 d2,
    a = prefix ++ py " - " ++ d1
    /\ b = prefix ++ py " - " ++ d2
    /\ occurs (py " - ") (prefix ++ py " -") = false.

(** The same, where the text before the delimiter is not blank and the two
    descriptions are both blank or both not; or two equal lines. *)
Definition description_variant (a b : str) : Prop :=
  a = b
  \/ exists prefix d1 d2,
       a = prefix ++ py " - " ++ d1
       /\ b = prefix ++ py " - " ++ d2
       /\ is_blank prefix = false
       /\ is_blank d1 = is_blank d2.

(** Inputs of the scenario with a description that is blank on one side. *)
Definition with_description : list str := [py "Root"; py "    A - x"].
Definition with_blank_description : list str := [py "Root"; py "    A - "].

(** * Properties *)

(** ** String primitives *)

Section Strings.

(** [replace] with a pattern of one character works character by
    character.  Every call of the program is of this kind. *)
Lemma replace_char (c : char) (new s : str) :
  replace [c] new s = flat_map (fun x => if (c =? x)%N then new else [x]) s.
Proof.
  unfold replace.
  induction s as [|x s IH]; [reflexivity|].
  cbn [replace_from starts_with flat_map length Nat.sub].
  rewrite andb_true_r.
  destruct (c =? x)%N; cbn [app]; now rewrite IH.
Qed.

Lemma replace_char_char (c d : char) (s : str) :
  replace [c] [d] s = map (fun x => if (c =? x)%N then d else x) s.
Proof.
  rewrite replace_char.
  induction s as [|x s IH]; [reflexivity|].
  cbn [flat_map map]. rewrite IH. now destruct (c =? x)%N.
Qed.

Lemma is_blank_cons c s : is_blank (c :: s) = isspace c && is_blank s.
Proof. reflexivity. Qed.

Lemma is_blank_app a b : is_blank (a ++ b) = is_blank a && is_blank b.
Proof. apply forallb_app. Qed.

Lemma rstrip_nil_iff s : rstrip s = [] <-> is_blank s = true.
Proof.
  induction s as [|c s IH]; [cbn; tauto|].
  rewrite is_blank_cons. cbn [rstrip].
  destruct (rstrip s) as [|r rs].
  - destruct (isspace c); cbn.
    + tauto.
    + split; discriminate.
  - split; [discriminate|].
    intros H. apply andb_true_iff in H as [_ H].
    apply IH in H. discriminate.
Qed.

Lemma rstrip_not_nil s : is_blank s = false -> rstrip s <> [].
Proof. intros B E. apply rstrip_nil_iff in E. congruence. Qed.

Lemma lstrip_nil_iff s : lstrip s = [] <-> is_blank s = true.
Proof.
  unfold lstrip.
  induction s as [|c s IH]; [cbn; tauto|].
  rewrite is_blank_cons. cbn [drop_while].
  destruct (isspace c); cbn; [tauto|].
  split; discriminate.
Qed.

Lemma is_blank_lstrip s : is_blank (lstrip s) = is_blank s.
Proof.
  unfold lstrip.
  induction s as [|c s IH]; [reflexivity|].
  cbn [drop_while]. destruct (isspace c) eqn:E.
  - rewrite IH, is_blank_cons. now rewrite E.
  - reflexivity.
Qed.

Lemma is_blank_rstrip s : is_blank (rstrip s) = is_blank s.
Proof.
  induction s as [|c s IH]; [reflexivity|].
  cbn [rstrip].
  destruct (rstrip s) as [|r rs] eqn:E.
  - assert (B : is_blank s = true) by now apply rstrip_nil_iff.
    rewrite is_blank_cons, B.
    destruct (isspace c) eqn:Ec; cbn; now rewrite ?Ec.
  - now rewrite !is_blank_cons, <- IH, is_blank_cons.
Qed.

Lemma strip_nil_iff s : strip s = [] <-> is_blank s = true.
Proof.
  unfold strip. rewrite rstrip_nil_iff. now rewrite is_blank_lstrip.
Qed.

(** The loop's test [not line.strip()] on the right-stripped line. *)
Lemma strip_rstrip_nil_iff s : strip (rstrip s) = [] <-> is_blank s = true.
Proof. rewrite strip_nil_iff. now rewrite is_blank_rstrip. Qed.

Lemma rstrip_idem s : rstrip (rstrip s) = rstrip s.
Proof.
  induction s as [|c s IH]; [reflexivity|].
  cbn [rstrip]. destruct (rstrip s) as [|r rs] eqn:E.
  - destruct (isspace c) eqn:Ec; cbn; now rewrite ?Ec.
  - cbn [rstrip]. cbn [rstrip] in IH. rewrite IH. reflexivity.
Qed.

Lemma rstrip_app a b :
  is_blank b = false -> rstrip (a ++ b) = a ++ rstrip b.
Proof.
  intros B. induction a as [|c a IH]; [reflexivity|].
  cbn [app rstrip]. rewrite IH.
  destruct (a ++ rstrip b) eqn:E; [|reflexivity].
  apply app_eq_nil in E as [_ E]. now apply rstrip_not_nil in E.
Qed.

Lemma lstrip_app a b :
  is_blank a = false -> lstrip (a ++ b) = lstrip a ++ b.
Proof.
  unfold lstrip. induction a as [|c a IH]; [discriminate|].
  rewrite is_blank_cons. cbn [app drop_while].
  destruct (isspace c); [exact IH|reflexivity].
Qed.

Lemma lstrip_blank_app pad s :
  is_blank pad = true -> lstrip (pad ++ s) = lstrip s.
Proof.
  unfold lstrip. induction pad as [|c pad IH]; [reflexivity|].
  rewrite is_blank_cons. intros B. apply andb_true_iff in B as [Hc B].
  cbn [app drop_while]. rewrite Hc. now apply IH.
Qed.

(** What [lstrip] leaves starts with a character that is not whitespace,
    and [rstrip] keeps such a start. *)
Lemma lstrip_head (s : str) c t : lstrip s = c :: t -> isspace c = false.
Proof.
  unfold lstrip. induction s as [|x s IH]; [discriminate|].
  cbn [drop_while]. destruct (isspace x) eqn:Ex; [exact IH|].
  now intros [= <- _].
Qed.

Lemma rstrip_head c (s : str) :
  isspace c = false -> exists t, rstrip (c :: s) = c :: t.
Proof.
  intros Hc. cbn [rstrip]. rewrite Hc.
  destruct (rstrip s) as [|r rs]; eauto.
Qed.

Lemma lstrip_rstrip (s : str) : lstrip (rstrip s) = rstrip (lstrip s).
Proof.
  unfold lstrip.
  induction s as [|c s IH]; [reflexivity|].
  cbn [drop_while]. destruct (isspace c) eqn:Ec.
  - rewrite <- IH. cbn [rstrip].
    destruct (rstrip s) as [|r rs]; rewrite ?Ec; cbn [drop_while];
      now rewrite ?Ec.
  - cbn [rstrip]. destruct (rstrip s) as [|r rs]; rewrite ?Ec;
      cbn [drop_while]; now rewrite Ec.
Qed.

Lemma strip_rstrip (s : str) : strip (rstrip s) = strip s.
Proof. unfold strip. now rewrite lstrip_rstrip, rstrip_idem. Qed.

(** *** Counting a leading run *)

Section Prefix.

Variable p : char -> bool.

Lemma drop_while_length s : length (drop_while p s) <= length s.
Proof.
  induction s as [|c s IH]; cbn [drop_while]; [lia|].
  destruct (p c); cbn [length]; lia.
Qed.

Lemma length_drop_while s :
  length s - length (drop_while p s) = count_while p s.
Proof.
  induction s as [|c s IH]; [reflexivity|].
  cbn [drop_while count_while].
  pose proof (drop_while_length s).
  destruct (p c); cbn [length]; lia.
Qed.

Lemma count_while_map (f : char -> char) s :
  count_while p (map f s) = count_while (fun c => p (f c)) s.
Proof.
  induction s as [|c s IH]; [reflexivity|].
  cbn [map count_while]. now rewrite IH.
Qed.

Lemma count_while_ext q s :
  (forall c, p c = q c) -> count_while p s = count_while q s.
Proof.
  intros E. induction s as [|c s IH]; [reflexivity|].
  cbn [count_while]. now rewrite E, IH.
Qed.

(** When [p] accepts whitespace only, the run stops inside a text that is
    not blank: what comes after, or is stripped on the right, is not seen. *)
Hypothesis p_space : forall c, p c = true -> isspace c = true.

Lemma count_while_rstrip s :
  is_blank s = false -> count_while p (rstrip s) = count_while p s.
Proof.
  induction s as [|c s IH]; [discriminate|].
  rewrite is_blank_cons. intros B. cbn [rstrip].
  destruct (rstrip s) as [|r rs] eqn:E.
  - apply rstrip_nil_iff in E. rewrite E, andb_true_r in B. rewrite B.
    cbn [count_while]. destruct (p c) eqn:Ec; [|reflexivity].
    apply p_space in Ec. congruence.
  - cbn [count_while]. destruct (p c); [|reflexivity].
    f_equal. apply IH.
    destruct (is_blank s) eqn:Bs; [|reflexivity].
    apply rstrip_nil_iff in Bs. congruence.
Qed.

Lemma count_while_app a b :
  is_blank a = false -> count_while p (a ++ b) = count_while p a.
Proof.
  induction a as [|c a IH]; [discriminate|].
  rewrite is_blank_cons. cbn [app count_while]. intros B.
  destruct (p c) eqn:Ec; [|reflexivity].
  apply p_space in Ec. rewrite Ec in B. now rewrite IH.
Qed.

End Prefix.

Lemma space_or_nbsp_isspace c :
  (c =? SPACE)%N || (c =? NBSP)%N = true -> isspace c = true.
Proof.
  intros H. apply orb_true_iff in H as [H|H]; apply N.eqb_eq in H; now subst.
Qed.

(** The indentation level counts the leading spaces of the line itself. *)
Lemma get_indentation_level_leading line :
  get_indentation_level line = leading_spaces line / 4.
Proof.
  unfold get_indentation_level, leading_spaces, INDENT_SPACES, lstrip_chars.
  rewrite length_drop_while, replace_char_char.
  f_equal.
  rewrite count_while_map.
  apply count_while_ext. intros c. cbn [existsb].
  rewrite orb_false_r.
  destruct (N.eqb_spec NBSP c) as [<-|Hn]; [reflexivity|].
  destruct (N.eqb_spec c NBSP) as [->|_]; [congruence|].
  now rewrite orb_false_r.
Qed.

Lemma leading_spaces_rstrip s :
  is_blank s = false -> leading_spaces (rstrip s) = leading_spaces s.
Proof. apply count_while_rstrip, space_or_nbsp_isspace. Qed.

Lemma leading_spaces_app a b :
  is_blank a = false -> leading_spaces (a ++ b) = leading_spaces a.
Proof. apply count_while_app, space_or_nbsp_isspace. Qed.

Lemma indentation_rstrip (line : str) :
  is_blank line = false ->
  get_indentation_level (rstrip line) = get_indentation_level line.
Proof.
  intros B. rewrite !get_indentation_level_leading.
  now rewrite leading_spaces_rstrip.
Qed.

Lemma parse_line_rstrip (s : str) : parse_line (rstrip s) = parse_line s.
Proof. unfold parse_line. now rewrite strip_rstrip. Qed.

End Strings.

(** ** One turn of the loop *)

Section Loop.

Lemma process_line_blank e line :
  is_blank line = true -> process_line e line = e.
Proof.
  intros B. unfold process_line.
  now rewrite (proj2 (strip_rstrip_nil_iff line) B).
Qed.

(** The depth computed by the loop is the clamped depth of the line. *)
Lemma child_depth_clamped c line :
  is_blank line = false ->
  child_depth c (rstrip line) = clamped_depth c line.
Proof.
  intros B. unfold child_depth, clamped_depth.
  rewrite get_indentation_level_leading, leading_spaces_rstrip by assumption.
  destruct (Nat.ltb_spec (c + 1) (Nat.max 1 (leading_spaces line / 4))); lia.
Qed.

Lemma clamped_depth_bounds c line :
  1 <= clamped_depth c line <= c + 1.
Proof. unfold clamped_depth. lia. Qed.

Lemma process_line_node e line :
  is_blank line = false ->
  let depth := clamped_depth (current_depth e) line in
  process_line e line =
    Emitter
      (tikz_nodes e
       ++ closing_chunks (current_depth e) depth
       ++ [opening_chunk depth (angle_index e);
           Concept depth (safe_concept_of (fst (parse_line line)))])
      (table_data e ++ [Item (fst (parse_line line)) (snd (parse_line line))])
      depth
      (if depth =? 1 then angle_index e + 1 else angle_index e).
Proof.
  intros B depth. unfold process_line.
  destruct (strip (rstrip line)) eqn:E.
  - apply strip_rstrip_nil_iff in E. congruence.
  - rewrite child_depth_clamped by assumption. fold depth.
    rewrite parse_line_rstrip. now destruct (parse_line line).
Qed.

Lemma fold_process_ind (P : emitter -> Prop) :
  (forall e line, P e -> P (process_line e line)) ->
  forall lines e, P e -> P (fold_left process_line lines e).
Proof.
  intros Hstep lines. induction lines as [|l ls IH]; intros e He; cbn.
  - exact He.
  - apply IH, Hstep, He.
Qed.

Lemma run_cons line0 rest :
  run (line0 :: rest) = Some (fold_left process_line rest (after_root line0)).
Proof. reflexivity. Qed.

End Loop.

(** A turn of the loop on a line that is not blank ([B]), with the depth
    of the new node named [d] and bounded by [Hd]. *)
Ltac child_node e line B d Hd :=
  rewrite (process_line_node e line B);
  pose proof (clamped_depth_bounds (current_depth e) line) as Hd;
  set (d := clamped_depth (current_depth e) line) in *; clearbody d;
  cbn [tikz_nodes table_data current_depth angle_index].

(** ** Counting over the emitted strings *)

Section Counting.

Lemma opened_app a b : opened (a ++ b) = opened a + opened b.
Proof. unfold opened. now rewrite map_app, list_sum_app. Qed.

Lemma closed_app a b : closed (a ++ b) = closed a + closed b.
Proof. unfold closed. now rewrite map_app, list_sum_app. Qed.

Lemma branches_app a b : branches (a ++ b) = branches a ++ branches b.
Proof.
  induction a as [|c a IH]; [reflexivity|].
  cbn. destruct (branch_of c); cbn; now rewrite IH.
Qed.

Lemma concept_depths_app a b :
  concept_depths (a ++ b) = concept_depths a ++ concept_depths b.
Proof.
  induction a as [|c a IH]; [reflexivity|].
  destruct c; cbn; now rewrite IH.
Qed.

(** The closings of a node. *)
Lemma opened_closing c d : opened (closing_chunks c d) = 0.
Proof. unfold closing_chunks. now destruct (d <=? c). Qed.

Lemma closed_closing c d :
  closed (closing_chunks c d) = if d <=? c then c - d + 1 else 0.
Proof. unfold closing_chunks. destruct (d <=? c); cbn; lia. Qed.

Lemma branches_closing c d : branches (closing_chunks c d) = [].
Proof. unfold closing_chunks. now destruct (d <=? c). Qed.

Lemma concept_depths_closing c d : concept_depths (closing_chunks c d) = [].
Proof. unfold closing_chunks. now destruct (d <=? c). Qed.

(** The opening of a node and its content. *)
Lemma opened_opening d k s : opened [opening_chunk d k; Concept d s] = 1.
Proof. unfold opening_chunk. now destruct (d =? 1). Qed.

Lemma closed_opening d k s : closed [opening_chunk d k; Concept d s] = 0.
Proof. unfold opening_chunk. now destruct (d =? 1). Qed.

Lemma branches_opening d k s :
  branches [opening_chunk d k; Concept d s] =
    [(d, if d =? 1 then Some (angle_at k) else None)].
Proof. unfold opening_chunk. now destruct (d =? 1). Qed.

Lemma concept_depths_opening d k s :
  concept_depths [opening_chunk d k; Concept d s] = [d].
Proof. unfold opening_chunk. now destruct (d =? 1). Qed.

(** The closings after the last node. *)
Lemma opened_close_remaining e :
  opened (close_remaining e) = opened (tikz_nodes e).
Proof.
  unfold close_remaining. destruct (0 <? current_depth e); [|reflexivity].
  rewrite opened_app. cbn. lia.
Qed.

Lemma closed_close_remaining e :
  closed (close_remaining e) = closed (tikz_nodes e) + current_depth e.
Proof.
  unfold close_remaining. destruct (Nat.ltb_spec 0 (current_depth e)).
  - rewrite closed_app. cbn. lia.
  - lia.
Qed.

Lemma branches_close_remaining e :
  branches (close_remaining e) = branches (tikz_nodes e).
Proof.
  unfold close_remaining. destruct (0 <? current_depth e); [|reflexivity].
  rewrite branches_app. cbn. apply app_nil_r.
Qed.

Lemma concept_depths_close_remaining e :
  concept_depths (close_remaining e) = concept_depths (tikz_nodes e).
Proof.
  unfold close_remaining. destruct (0 <? current_depth e); [|reflexivity].
  rewrite concept_depths_app. cbn. apply app_nil_r.
Qed.

End Counting.

Create Rewrite HintDb chunks.

#[local] Hint Rewrite
  opened_app closed_app branches_app concept_depths_app
  opened_closing closed_closing branches_closing concept_depths_closing
  opened_opening closed_opening branches_opening concept_depths_opening
  opened_close_remaining closed_close_remaining
  branches_close_remaining concept_depths_close_remaining : chunks.

(** ** The loop keeps the branches balanced *)

Section Balance.

Lemma balanced_step e line : balanced e -> balanced (process_line e line).
Proof.
  unfold balanced. intros H.
  destruct (is_blank line) eqn:B.
  - now rewrite process_line_blank.
  - child_node e line B d Hd. autorewrite with chunks.
    destruct (Nat.leb_spec d (current_depth e)); lia.
Qed.

Lemma nesting_app a b : forall open,
  nesting open (a ++ b) =
    match nesting open a with
    | Some open' => nesting open' b
    | None => None
    end.
Proof.
  induction a as [|c a IH]; intros open; [reflexivity|].
  cbn [app nesting]. destruct (closes_of c <=? open); [apply IH|reflexivity].
Qed.

Lemma nesting_node c d k s :
  1 <= d <= c + 1 ->
  nesting c (closing_chunks c d ++ [opening_chunk d k; Concept d s]) = Some d.
Proof.
  intros Hd. unfold closing_chunks, opening_chunk.
  destruct (Nat.leb_spec d c) as [Hle|Hgt], (d =? 1);
    cbn [app nesting closes_of opens_of Nat.leb].
  1,2: destruct (Nat.leb_spec (c - d + 1) c) as [_|Hc]; [|lia].
  all: f_equal; lia.
Qed.

Lemma nested_step e line : nested e -> nested (process_line e line).
Proof.
  unfold nested. intros H.
  destruct (is_blank line) eqn:B.
  - now rewrite process_line_blank.
  - child_node e line B d Hd.
    rewrite nesting_app, H. now apply nesting_node.
Qed.

Lemma nested_run lines e : run lines = Some e -> nested e.
Proof.
  destruct lines as [|line0 rest]; [discriminate|].
  intros [= <-]. apply fold_process_ind.
  - intros; now apply nested_step.
  - reflexivity.
Qed.

Lemma nesting_close_remaining e :
  nested e -> nesting 0 (close_remaining e) = Some 0.
Proof.
  unfold nested, close_remaining. intros H.
  destruct (Nat.ltb_spec 0 (current_depth e)) as [Hpos|Hz].
  - rewrite nesting_app, H. cbn [nesting closes_of opens_of].
    rewrite Nat.leb_refl. f_equal. lia.
  - rewrite H. f_equal. lia.
Qed.

Lemma balanced_run lines e : run lines = Some e -> balanced e.
Proof.
  destruct lines as [|line0 rest]; [discriminate|].
  intros [= <-]. apply fold_process_ind.
  - intros; now apply balanced_step.
  - reflexivity.
Qed.

End Balance.

(** ** The angle cursor *)

Section Angles.

(** The index used by the lookup is always inside the list. *)
Lemma angle_index_in_range k :
  k mod length LEVEL_1_ANGLES < length LEVEL_1_ANGLES.
Proof. apply Nat.mod_upper_bound. cbn. lia. Qed.

Lemma angles_tracked_step e line :
  angles_tracked e -> angles_tracked (process_line e line).
Proof.
  intros [Htop Hall].
  destruct (is_blank line) eqn:B.
  - rewrite process_line_blank by assumption. now split.
  - child_node e line B d Hd.
    unfold angles_tracked, top_level in *.
    cbn [tikz_nodes angle_index]. autorewrite with chunks. cbn [app].
    split.
    + rewrite filter_app, Htop. cbn [filter fst].
      destruct (Nat.eqb_spec d 1) as [->|Hne].
      * now rewrite Nat.add_1_r, seq_S, map_app.
      * now rewrite app_nil_r.
    + apply Forall_app. split; [assumption|].
      constructor; [|constructor]. cbn [fst snd]. split; [lia|].
      intros H1. destruct (Nat.eqb_spec d 1); [lia|reflexivity].
Qed.

Lemma angles_tracked_run lines e : run lines = Some e -> angles_tracked e.
Proof.
  destruct lines as [|line0 rest]; [discriminate|].
  intros [= <-]. apply fold_process_ind.
  - intros; now apply angles_tracked_step.
  - split; [reflexivity|constructor].
Qed.

Lemma nth_error_seq_inv start len k x :
  nth_error (seq start len) k = Some x -> x = start + k /\ k < len.
Proof.
  intros H.
  assert (Hk : k < len).
  { assert (N : nth_error (seq start len) k <> None) by congruence.
    apply nth_error_Some in N. now rewrite length_seq in N. }
  split; [|exact Hk].
  apply (nth_error_nth _ _ 0) in H. rewrite seq_nth in H by assumption. lia.
Qed.

End Angles.

(** ** Depths and table entries over the whole loop *)

Section Trace.

Lemma non_blank_lines_cons l ls :
  non_blank_lines (l :: ls) =
    if is_blank l then non_blank_lines ls else l :: non_blank_lines ls.
Proof. unfold non_blank_lines. cbn. now destruct (is_blank l). Qed.

Lemma last_cons (d : nat) l : forall c, last (d :: l) c = last l d.
Proof.
  revert d. induction l as [|x l IH]; intros d c; [reflexivity|].
  change (last (d :: x :: l) c) with (last (x :: l) c).
  now rewrite !IH.
Qed.

Lemma depths_fold lines : forall e,
  let e' := fold_left process_line lines e in
  concept_depths (tikz_nodes e') =
    concept_depths (tikz_nodes e)
    ++ clamped_depths (current_depth e) (non_blank_lines lines)
  /\ current_depth e' =
       last (clamped_depths (current_depth e) (non_blank_lines lines))
            (current_depth e).
Proof.
  induction lines as [|l ls IH]; intros e; cbn [fold_left].
  - cbn. now rewrite app_nil_r.
  - rewrite non_blank_lines_cons.
    destruct (is_blank l) eqn:B.
    + rewrite process_line_blank by assumption. apply IH.
    + specialize (IH (process_line e l)). cbn zeta in IH.
      destruct IH as [IH1 IH2]. cbn zeta. rewrite IH1, IH2.
      rewrite (process_line_node e l B).
      cbn [tikz_nodes current_depth clamped_depths].
      autorewrite with chunks. cbn [app].
      rewrite <- app_assoc, last_cons. now split.
Qed.

Lemma table_data_fold lines : forall e,
  table_data (fold_left process_line lines e) =
    table_data e ++ map item_of (non_blank_lines lines).
Proof.
  induction lines as [|l ls IH]; intros e; cbn [fold_left].
  - cbn. now rewrite app_nil_r.
  - rewrite IH, non_blank_lines_cons. destruct (is_blank l) eqn:B.
    + now rewrite process_line_blank.
    + rewrite (process_line_node e l B). cbn [table_data map].
      unfold item_of. now rewrite parse_line_rstrip, <- app_assoc.
Qed.

Lemma clamped_depths_steps lines : forall c,
  steps_ok c (clamped_depths c lines).
Proof.
  induction lines as [|l ls IH]; intros c; cbn [clamped_depths steps_ok];
    [exact I|].
  pose proof (clamped_depth_bounds c l) as [H1 H2].
  split; [exact H1|]. split; [exact H2|]. apply IH.
Qed.

Lemma leading_spaces_indented n (c : char) tail :
  isspace c = false ->
  leading_spaces (repeat SPACE n ++ c :: tail) = n.
Proof.
  intros Hc. unfold leading_spaces.
  induction n as [|n IH]; cbn [repeat app count_while].
  - destruct (N.eqb_spec c SPACE) as [->|_]; [discriminate|].
    destruct (N.eqb_spec c NBSP) as [->|_]; [discriminate|].
    reflexivity.
  - cbn [N.eqb SPACE orb]. now rewrite IH.
Qed.

Lemma is_blank_indented n (c : char) tail :
  isspace c = false -> is_blank (repeat SPACE n ++ c :: tail) = false.
Proof.
  intros Hc. rewrite is_blank_app, is_blank_cons, Hc.
  apply andb_false_r.
Qed.

End Trace.

(** ** Depth of a child node *)

(** C1. For an input [line0 :: rest], the depths given to the nodes are 0 for
    the root and then, for every non-blank line of [rest] in order,
    min (max 1 (leading_spaces / 4)) (depth of the node before + 1), the
    leading spaces counting non-breaking spaces as spaces.  Hence every
    child depth is at least 1 and at most one more than the depth before
    it.  The same holds for one turn of the loop from any emitter, and from
    any current depth every depth between 1 and the current depth plus one
    is reached by some line: steps back are not limited. *)
Theorem depth_rule (line0 : str) (rest : list str) :
  node_depths (line0 :: rest) = 0 :: clamped_depths 0 (non_blank_lines rest)
  /\ steps_ok 0 (concept_depths (emitted (line0 :: rest)))
  /\ (forall e line,
        is_blank line = false ->
        current_depth (process_line e line) =
          Nat.min (Nat.max 1 (leading_spaces line / 4)) (current_depth e + 1))
  /\ (forall e d,
        1 <= d <= current_depth e + 1 ->
        exists line,
          is_blank line = false /\ current_depth (process_line e line) = d).
Proof.
  assert (D : concept_depths (emitted (line0 :: rest)) =
              clamped_depths 0 (non_blank_lines rest)).
  { unfold emitted. rewrite run_cons, concept_depths_close_remaining.
    now rewrite (proj1 (depths_fold rest (after_root line0))). }
  split; [|split; [|split]].
  - unfold node_depths. now rewrite D.
  - rewrite D. apply clamped_depths_steps.
  - intros e line B. now rewrite (process_line_node e line B).
  - intros e d Hd.
    exists (repeat SPACE (d * 4) ++ py "x").
    assert (S : isspace 120%N = false) by reflexivity.
    assert (B : is_blank (repeat SPACE (d * 4) ++ py "x") = false)
      by now apply is_blank_indented.
    split; [exact B|].
    rewrite (process_line_node e _ B). cbn [current_depth].
    unfold clamped_depth. change (py "x") with [120%N].
    rewrite leading_spaces_indented by assumption.
    rewrite Nat.div_mul by discriminate. lia.
Qed.

Lemma depth_rule_witness :
  node_depths [py "Root"; py "        Deep"; py "    "; py "Next"] = [0; 1; 1]
  /\ current_depth (process_line (after_root (py "Root")) (py "        Deep")) = 1
  /\ exists line,
       is_blank line = false
       /\ current_depth (process_line (Emitter [] [] 5 0) line) = 2.
Proof.
  destruct (depth_rule (py "Root") [py "        Deep"; py "    "; py "Next"])
    as (H1 & _ & H3 & H4).
  split; [exact H1|]. split.
  - apply (H3 (after_root (py "Root")) (py "        Deep")). reflexivity.
  - apply (H4 (Emitter [] [] 5 0) 2). cbn. lia.
Defined.

(** ** Balanced branches *)

(** Counted on the strings appended, the openings equal the closings; the
    closings are those appended between the nodes plus [current_depth]
    after the last node; read in order, no closing comes before its
    opening and no branch stays open. *)
Lemma chunks_balanced (lines : list str) :
  opened (emitted lines) = closed (emitted lines)
  /\ nesting 0 (emitted lines) = Some 0
  /\ (forall e,
        run lines = Some e ->
        closed (emitted lines) = closed (tikz_nodes e) + current_depth e
        /\ opened (emitted lines) = opened (tikz_nodes e)).
Proof.
  unfold emitted. destruct (run lines) as [e|] eqn:R.
  - pose proof (balanced_run lines R) as Hb. unfold balanced in Hb.
    autorewrite with chunks.
    split; [exact Hb|]. split.
    + apply nesting_close_remaining, (nested_run lines R).
    + now intros e' [= <-].
  - split; [reflexivity|]. split; [reflexivity|discriminate].
Qed.

(** *** Braces of the text *)

Section Braces.

Variable c : char.

Lemma count_char_app a b : count_char c (a ++ b) = count_char c a + count_char c b.
Proof. unfold count_char. now rewrite filter_app, length_app. Qed.

Lemma count_char_times piece n :
  count_char c (times piece n) = n * count_char c piece.
Proof.
  induction n as [|n IH]; [reflexivity|].
  cbn [times]. rewrite count_char_app, IH. lia.
Qed.

Lemma count_char_concat parts :
  count_char c (concat parts) = list_sum (map (count_char c) parts).
Proof.
  induction parts as [|p ps IH]; [reflexivity|].
  cbn [concat map list_sum]. now rewrite count_char_app, IH.
Qed.

(** A number is written with digits. *)
Hypothesis not_digit : (c <? 48)%N || (57 <? c)%N = true.

Lemma count_char_digits (d : Decimal.uint) :
  count_char c (py (NilEmpty.string_of_uint d)) = 0.
Proof.
  assert (D : forall k, (48 <=? k)%N && (k <=? 57)%N = true -> (c =? k)%N = false).
  { intros k Hk. apply andb_true_iff in Hk as [H1 H2].
    apply N.leb_le in H1, H2. apply N.eqb_neq. intros ->.
    apply orb_true_iff in not_digit as [H|H]; apply N.ltb_lt in H; lia. }
  unfold count_char, py in *.
  induction d; cbn [NilEmpty.string_of_uint String.list_ascii_of_string
                    map filter]; [reflexivity|..];
    (rewrite D by reflexivity); exact IHd.
Qed.

Lemma count_char_str_of_nat n : count_char c (str_of_nat n) = 0.
Proof.
  unfold str_of_nat, NilZero.string_of_uint.
  destruct (Nat.to_uint n) eqn:E; try (rewrite <- E; apply count_char_digits).
  unfold count_char. cbn. now rewrite (proj2 (N.eqb_neq c 48)) by
    (intros ->; discriminate).
Qed.

End Braces.

Lemma render_lbrace c :
  plain_label c ->
  count_char LBRACE (render c) = opens_of c + concepts_of c.
Proof.
  destruct c as [d n|d a|d|d s|n]; cbn [plain_label render opens_of concepts_of];
    intros H; rewrite ?count_char_app, ?count_char_times,
      ?count_char_str_of_nat by reflexivity.
  - cbn. lia.
  - cbn. lia.
  - cbn. lia.
  - destruct H as [-> _]. cbn. lia.
  - cbn. lia.
Qed.

Lemma render_rbrace c :
  plain_label c ->
  count_char RBRACE (render c) = closes_of c + concepts_of c.
Proof.
  destruct c as [d n|d a|d|d s|n]; cbn [plain_label render closes_of concepts_of];
    intros H; rewrite ?count_char_app, ?count_char_times,
      ?count_char_str_of_nat by reflexivity.
  - cbn. lia.
  - cbn. lia.
  - cbn. lia.
  - destruct H as [_ ->]. cbn. lia.
  - cbn. lia.
Qed.

Lemma braces_of_chunks cs :
  Forall plain_label cs ->
  count_char LBRACE (concat (map render cs)) =
    opened cs + list_sum (map concepts_of cs)
  /\ count_char RBRACE (concat (map render cs)) =
       closed cs + list_sum (map concepts_of cs).
Proof.
  unfold opened, closed.
  induction 1 as [|c cs Hc _ [IH1 IH2]]; [now split|].
  cbn [map concat list_sum]. rewrite !count_char_app, IH1, IH2.
  rewrite render_lbrace, render_rbrace by assumption.
  assert (C : forall a l, list_sum (a :: l) = a + list_sum l) by reflexivity.
  rewrite !C. split; lia.
Qed.

(** When no label holds a brace, the text written for the branches has as
    many opening braces as closing braces. *)
Lemma body_braces_balanced lines :
  Forall plain_label (emitted lines) ->
  count_char LBRACE (concat (map render (emitted lines))) =
    count_char RBRACE (concat (map render (emitted lines))).
Proof.
  intros H. destruct (braces_of_chunks H) as [-> ->]. f_equal.
  unfold emitted. destruct (run lines) as [e|] eqn:R; [|reflexivity].
  autorewrite with chunks. apply (balanced_run lines R).
Qed.

(** ** Close phase *)

(** The strings that a child node of depth [d] appends at current depth
    [c]: its closings, one opening, its content. *)
Lemma close_phase_chunks (e : emitter) (line : str) (B : is_blank line = false) :
  let c := current_depth e in
  let e' := process_line e line in
  let d := current_depth e' in
  exists closings label,
    tikz_nodes e' =
      tikz_nodes e ++ closings
      ++ [opening_chunk d (angle_index e); Concept d label]
    /\ (d <= c -> closings = [Closing d ((c - d) + 1)])
    /\ (d = c + 1 -> closings = [])
    /\ (d <= c \/ d = c + 1)
    /\ closed (tikz_nodes e') =
         closed (tikz_nodes e) + (if d <=? c then (c - d) + 1 else 0)
    /\ opened (tikz_nodes e') = opened (tikz_nodes e) + 1.
Proof.
  cbn zeta. child_node e line B d Hd.
  exists (closing_chunks (current_depth e) d),
         (safe_concept_of (fst (parse_line line))).
  split; [reflexivity|].
  repeat split.
  - intros H. unfold closing_chunks.
    destruct (Nat.leb_spec d (current_depth e)); [reflexivity|lia].
  - intros H. unfold closing_chunks.
    destruct (Nat.leb_spec d (current_depth e)); [lia|reflexivity].
  - lia.
  - autorewrite with chunks. lia.
  - autorewrite with chunks. lia.
Qed.

(** ** Angles of the top-level branches *)

(** The angles held by the openings appended, in order. *)
Lemma angles_cycle_chunks (lines : list str) :
  (forall k b,
     nth_error (top_level (emitted lines)) k = Some b ->
     b = (1, Some (nth (k mod 6) [150; 30; 270; 210; 90; 330] 0)))
  /\ (forall b,
        In b (branches (emitted lines)) ->
        1 <= fst b /\ (1 < fst b -> snd b = None))
  /\ (forall e,
        run lines = Some e ->
        angle_index e = length (top_level (emitted lines))).
Proof.
  unfold emitted, top_level. destruct (run lines) as [e|] eqn:R.
  - destruct (angles_tracked_run lines R) as [Htop Hall].
    unfold top_level in Htop.
    rewrite branches_close_remaining, Htop.
    split; [|split].
    + intros k b H. rewrite nth_error_map in H.
      destruct (nth_error (seq 0 (angle_index e)) k) as [x|] eqn:E;
        [|discriminate].
      apply nth_error_seq_inv in E as [-> _]. cbn in H.
      now injection H as <-.
    + intros b Hb. rewrite Forall_forall in Hall. now apply Hall.
    + intros e' [= <-]. now rewrite length_map, length_seq.
  - split; [|split].
    + intros k b H. now destruct k.
    + intros b [].
    + discriminate.
Qed.

(** ** The scenario of the specification *)

(** The depths of the scenario, as it is indented, are not [0; 1; 2; 1]. *)
Lemma scenario_depths_differ : node_depths scenario <> [0; 1; 2; 1].
Proof. vm_compute. discriminate. Qed.

(** The strings appended for the scenario, as it is indented and indented
    by 4 and 8. *)
Lemma scenario_chunks :
  node_depths scenario = [0; 1; 1; 1]
  /\ emitted scenario =
       [ChildGrow 1 (nth 0 LEVEL_1_ANGLES 0); Concept 1 (py "ChildA");
        Closing 1 1;
        ChildGrow 1 (nth 1 LEVEL_1_ANGLES 0); Concept 1 (py "GrandchildA");
        Closing 1 1;
        ChildGrow 1 (nth 2 LEVEL_1_ANGLES 0); Concept 1 (py "ChildB");
        Remaining 1]
  /\ node_depths scenario_by_four = [0; 1; 2; 1]
  /\ emitted scenario_by_four =
       [ChildGrow 1 (nth 0 LEVEL_1_ANGLES 0); Concept 1 (py "ChildA");
        Child 2; Concept 2 (py "GrandchildA");
        Closing 1 2;
        ChildGrow 1 (nth 1 LEVEL_1_ANGLES 0); Concept 1 (py "ChildB");
        Remaining 1].
Proof. repeat split. Qed.

(** ** Table entries and the root *)

Lemma table_data_run line0 rest :
  table_of (line0 :: rest) = map item_of (line0 :: non_blank_lines rest).
Proof.
  unfold table_of. rewrite run_cons, table_data_fold.
  cbn [after_root table_data map app].
  unfold root_item, item_of. now destruct (parse_line (rstrip line0)).
Qed.

(** One row per line kept: the first line, blank or not, and every
    non-blank line after it. *)
Lemma table_rows_count line0 rest :
  length (table_rows (table_of (line0 :: rest))) =
    1 + length (non_blank_lines rest).
Proof.
  unfold table_rows. rewrite table_data_run, !length_map. reflexivity.
Qed.

(** When the first line is not blank, that is one row per non-blank line. *)
Lemma table_rows_count_non_blank_first line0 rest :
  is_blank line0 = false ->
  length (table_rows (table_of (line0 :: rest))) =
    length (non_blank_lines (line0 :: rest)).
Proof.
  intros B. rewrite table_rows_count, non_blank_lines_cons, B. reflexivity.
Qed.

(** C4. The row count is the number of non-blank lines only when the first
    line is not blank.  For the two lines of a text that starts with an
    empty line, the table has two rows, the first one empty, although one
    line only is not blank: the first line is the root without the test
    for blank lines that the loop makes. *)
Theorem rows_of_blank_first :
  length (table_rows (table_of blank_first)) = 2
  /\ length (non_blank_lines blank_first) = 1
  /\ table_rows (table_of blank_first) = [py "     &  \\"; py "    A &  \\"].
Proof. repeat split. Qed.

(** The root is the first line: its depth is 0, it is written once, before
    the strings of the children, and it is not one of them. *)
Lemma root_first line0 rest :
  node_depths (line0 :: rest) = 0 :: concept_depths (emitted (line0 :: rest))
  /\ generate_tikz_code (line0 :: rest) =
       LATEX_START_TEMPLATE ++ root_node_definition line0
       ++ concat (map render (emitted (line0 :: rest)))
       ++ TIKZ_END ++ table_block (line0 :: rest) ++ LATEX_END.
Proof. split; reflexivity. Qed.

(** C5. The root is the first line, blank or not.  For the two lines of a
    text that starts with an empty line, the root written has an empty
    label, and the first non-blank line [A] is a child of depth 1 that opens
    a branch of its own, closed at the end. *)
Theorem root_of_blank_first :
  root_item (nth 0 blank_first []) = Item [] []
  /\ root_node_definition (nth 0 blank_first []) =
       [LF] ++ py "  \node[concept] { \textbf{} }"
  /\ node_depths blank_first = [0; 1]
  /\ emitted blank_first =
       [ChildGrow 1 150; Concept 1 (py "A"); Remaining 1].
Proof. repeat split. Qed.

(** ** Empty input *)

(** For the empty input the footer does not follow the header at once. *)
Lemma empty_input_not_adjacent :
  main [] <> LATEX_START_TEMPLATE ++ LATEX_END.
Proof. vm_compute. discriminate. Qed.

(** C9 (amended). For the empty input the output is the header, one newline
    character and the footer; [generate_tikz_code] is not called: the text
    holds no root node, no branch and no table row, of which none is made. *)
Theorem empty_input_output :
  main [] = LATEX_START_TEMPLATE ++ [LF] ++ LATEX_END
  /\ occurs (py "\node") (main []) = false
  /\ occurs (py "child") (main []) = false
  /\ occurs (py "\midrule") (main []) = false
  /\ branches (emitted []) = []
  /\ table_rows (table_of []) = [].
Proof. repeat split. Qed.

(** ** Escaping of the table cells *)

Section Escaping.

Let after_backslash (x : char) : str :=
  if (BACKSLASH =? x)%N then py "\textbackslash " else [x].
Let after_ampersand (x : char) : str :=
  if (AMPERSAND =? x)%N then py "\&" else [x].
Let after_percent (x : char) : str :=
  if (PERCENT =? x)%N then py "\%" else [x].
Let after_underscore (x : char) : str :=
  if (UNDERSCORE =? x)%N then py "\_" else [x].

Lemma escape_one (x : char) :
  flat_map after_underscore
    (flat_map after_percent
       (flat_map after_ampersand (after_backslash x))) = escape_char x.
Proof.
  unfold escape_char.
  destruct (N.eqb_spec x BACKSLASH) as [->|H1]; [reflexivity|].
  destruct (N.eqb_spec x AMPERSAND) as [->|H2]; [reflexivity|].
  destruct (N.eqb_spec x PERCENT) as [->|H3]; [reflexivity|].
  destruct (N.eqb_spec x UNDERSCORE) as [->|H4]; [reflexivity|].
  unfold after_backslash.
  rewrite (proj2 (N.eqb_neq BACKSLASH x)) by congruence.
  cbn [flat_map app]. unfold after_ampersand.
  rewrite (proj2 (N.eqb_neq AMPERSAND x)) by congruence.
  cbn [flat_map app]. unfold after_percent.
  rewrite (proj2 (N.eqb_neq PERCENT x)) by congruence.
  cbn [flat_map app]. unfold after_underscore.
  now rewrite (proj2 (N.eqb_neq UNDERSCORE x)) by congruence.
Qed.

(** The four replacements in a row act on each character on its own. *)
Lemma escape_cell_chars (s : str) : escape_cell s = flat_map escape_char s.
Proof.
  unfold escape_cell. rewrite !replace_char.
  change (flat_map after_underscore
            (flat_map after_percent
               (flat_map after_ampersand (flat_map after_backslash s)))
          = flat_map escape_char s).
  induction s as [|x s IH]; [reflexivity|].
  cbn [flat_map]. rewrite !flat_map_app, IH. f_equal. apply escape_one.
Qed.

End Escaping.

(** Escaping the backslash after the ampersand would escape the backslash
    that the ampersand brought in. *)
Remark backslash_last_escapes_twice :
  replace [BACKSLASH] (py "\textbackslash ")
    (replace [AMPERSAND] (py "\&") (py "&")) = py "\textbackslash &"
  /\ escape_cell (py "&") = py "\&".
Proof. split; reflexivity. Qed.

(** C8. In every table row the label and the description are each escaped
    on their own, character by character: a backslash, an ampersand, a
    percent sign and an underscore are replaced by their escapes and every
    other character is kept, so that no backslash brought in by an escape is
    escaped again; the label [A & B_C] gives the cell [A \& B\_C]. *)
Theorem table_cells_escaped (it : item) :
  table_row it =
    py "    " ++ flat_map escape_char (node it)
    ++ py " & " ++ flat_map escape_char (desc it) ++ py " \\"
  /\ escape_char BACKSLASH = py "\textbackslash "
  /\ escape_char AMPERSAND = py "\&"
  /\ escape_char PERCENT = py "\%"
  /\ escape_char UNDERSCORE = py "\_"
  /\ (forall c,
        c <> BACKSLASH -> c <> AMPERSAND -> c <> PERCENT -> c <> UNDERSCORE ->
        escape_char c = [c])
  /\ escape_cell (py "A & B_C") = py "A \& B\_C".
Proof.
  split; [|repeat split].
  - unfold table_row. now rewrite !escape_cell_chars.
  - intros c H1 H2 H3 H4. unfold escape_char.
    rewrite (proj2 (N.eqb_neq c BACKSLASH)) by assumption.
    rewrite (proj2 (N.eqb_neq c AMPERSAND)) by assumption.
    rewrite (proj2 (N.eqb_neq c PERCENT)) by assumption.
    now rewrite (proj2 (N.eqb_neq c UNDERSCORE)) by assumption.
Qed.

Lemma table_cells_escaped_witness :
  table_row (Item (py "A & B_C") (py "50% of a\b")) =
    py "    A \& B\_C & 50\% of a\textbackslash b \\"
  /\ escape_char 65%N = [65%N].
Proof.
  destruct (table_cells_escaped (Item (py "A & B_C") (py "50% of a\b")))
    as (H & _ & _ & _ & _ & Hc & _).
  split; [exact H|].
  apply Hc; discriminate.
Defined.

(** ** Descriptions stay in the table *)

Section Descriptions.

(** A line is blank exactly when its label is empty. *)
Lemma label_nil_iff (line : str) :
  fst (parse_line line) = [] <-> is_blank line = true.
Proof.
  unfold parse_line. cbn [fst].
  split.
  - intros H. apply strip_nil_iff.
    unfold strip in *.
    destruct (lstrip line) as [|c t] eqn:L; [reflexivity|].
    pose proof (lstrip_head line L) as Hc.
    destruct (rstrip_head c t Hc) as [t' Ht]. rewrite Ht in H.
    cbn [split_once starts_with py map String.list_ascii_of_string] in H.
    replace (N_of_ascii " " =? c)%N with false in H.
    2:{ symmetry. apply N.eqb_neq. intros <-. discriminate. }
    cbn [andb] in H. destruct (split_once _ t') as [before after].
    cbn [fst] in H.
    unfold lstrip in H. cbn [drop_while] in H. rewrite Hc in H.
    destruct (rstrip_head c before Hc) as [t'' Ht'']. congruence.
  - intros B. apply strip_nil_iff in B. now rewrite B.
Qed.

Lemma parsed_alike_blank l1 l2 :
  parsed_alike l1 l2 -> is_blank l1 = is_blank l2.
Proof.
  intros [Hl _].
  destruct (is_blank l1) eqn:B1, (is_blank l2) eqn:B2; try reflexivity.
  - apply label_nil_iff in B1. rewrite Hl in B1.
    apply label_nil_iff in B1. congruence.
  - apply label_nil_iff in B2. rewrite <- Hl in B2.
    apply label_nil_iff in B2. congruence.
Qed.

Lemma same_visible_step e1 e2 l1 l2 :
  parsed_alike l1 l2 -> same_visible e1 e2 ->
  same_visible (process_line e1 l1) (process_line e2 l2).
Proof.
  intros Hs (Hn & Hd & Ha & Ht).
  pose proof (parsed_alike_blank Hs) as Hb.
  destruct Hs as [Hl Hi].
  destruct (is_blank l1) eqn:B1; symmetry in Hb.
  - rewrite !process_line_blank by assumption. now repeat split.
  - rewrite (process_line_node e1 l1 B1), (process_line_node e2 l2 Hb).
    unfold clamped_depth.
    rewrite <- !get_indentation_level_leading, Hl, Hi, Hn, Hd, Ha.
    unfold same_visible. cbn [tikz_nodes current_depth angle_index table_data].
    repeat split. rewrite !map_app, Ht. reflexivity.
Qed.

Lemma same_visible_fold ls1 ls2 :
  Forall2 parsed_alike ls1 ls2 ->
  forall e1 e2, same_visible e1 e2 ->
  same_visible (fold_left process_line ls1 e1) (fold_left process_line ls2 e2).
Proof.
  induction 1 as [|l1 l2 ls1 ls2 Hl _ IH]; intros e1 e2 He; cbn [fold_left].
  - exact He.
  - apply IH. now apply same_visible_step.
Qed.

Lemma parsed_alike_root l1 l2 :
  parsed_alike l1 l2 ->
  root_node_definition l1 = root_node_definition l2
  /\ same_visible (after_root l1) (after_root l2).
Proof.
  intros [Hl _].
  assert (R : node (root_item l1) = node (root_item l2)).
  { unfold root_item. rewrite !parse_line_rstrip.
    destruct (parse_line l1), (parse_line l2). exact Hl. }
  split.
  - unfold root_node_definition. now rewrite R.
  - unfold same_visible, after_root.
    cbn [tikz_nodes current_depth angle_index table_data map].
    now rewrite R.
Qed.

Lemma close_remaining_visible e1 e2 :
  same_visible e1 e2 -> close_remaining e1 = close_remaining e2.
Proof.
  intros (Hn & Hd & _). unfold close_remaining. now rewrite Hn, Hd.
Qed.

End Descriptions.

(** Whitespace put before the first line changes neither the root written
    nor its table entry, and its depth stays 0. *)
Lemma root_ignores_indentation pad line0 rest :
  is_blank pad = true ->
  root_item (pad ++ line0) = root_item line0
  /\ root_node_definition (pad ++ line0) = root_node_definition line0
  /\ nth 0 (node_depths ((pad ++ line0) :: rest)) 1 = 0.
Proof.
  intros B.
  assert (P : parse_line (rstrip (pad ++ line0)) = parse_line (rstrip line0)).
  { rewrite !parse_line_rstrip. unfold parse_line, strip.
    now rewrite lstrip_blank_app. }
  assert (R : root_item (pad ++ line0) = root_item line0).
  { unfold root_item. now rewrite P. }
  split; [exact R|]. split; [|reflexivity].
  unfold root_node_definition. now rewrite R.
Qed.

(** Two inputs of the same length whose corresponding lines are parsed
    alike give the same strings for the root and the branches and the same
    labels in the table. *)
Lemma parsed_alike_output (lines1 lines2 : list str) :
  Forall2 parsed_alike lines1 lines2 ->
  emitted lines1 = emitted lines2
  /\ map node (table_of lines1) = map node (table_of lines2)
  /\ exists before after,
       generate_tikz_code lines1 = before ++ table_block lines1 ++ after
       /\ generate_tikz_code lines2 = before ++ table_block lines2 ++ after.
Proof.
  intros H. destruct H as [|l1 l2 rest1 rest2 Hroot Hrest].
  - split; [reflexivity|]. split; [reflexivity|]. now exists [], [].
  - destruct (parsed_alike_root Hroot) as [Hdef Hinit].
    pose proof (same_visible_fold Hrest Hinit) as Hv.
    pose proof (close_remaining_visible Hv) as Hc.
    destruct Hv as (_ & _ & _ & Ht).
    unfold emitted, table_of, table_block. rewrite !run_cons.
    split; [exact Hc|]. split; [exact Ht|].
    exists (LATEX_START_TEMPLATE ++ root_node_definition l1
            ++ concat (map render
                 (close_remaining
                    (fold_left process_line rest1 (after_root l1))))
            ++ TIKZ_END),
           LATEX_END.
    split.
    + cbn [generate_tikz_code]. now rewrite <- !app_assoc.
    + rewrite Hdef, Hc. cbn [generate_tikz_code]. now rewrite <- !app_assoc.
Qed.

(** ** Lines that differ in their description *)

Section Variants.

Lemma starts_with_long sep : forall x r,
  length sep <= length x -> starts_with sep (x ++ r) = starts_with sep x.
Proof.
  induction sep as [|a sep IH]; intros x r L.
  - now destruct x.
  - destruct x as [|b x]; [cbn in L; lia|].
    cbn [app starts_with]. rewrite IH; [reflexivity|cbn in L; lia].
Qed.

Lemma starts_with_self sep r : starts_with sep (sep ++ r) = true.
Proof.
  induction sep as [|a sep IH]; [reflexivity|].
  cbn [app starts_with]. now rewrite N.eqb_refl, IH.
Qed.

(** The text before the first separator does not depend on what follows
    a separator. *)
Lemma split_once_before sep b r1 r2 :
  fst (split_once sep (b ++ sep ++ r1)) =
    fst (split_once sep (b ++ sep ++ r2)).
Proof.
  induction b as [|c b IH].
  - cbn [app]. destruct sep as [|a sep].
    + cbn [app]. now destruct r1, r2.
    + change ((a :: sep) ++ r1) with (a :: (sep ++ r1)).
      change ((a :: sep) ++ r2) with (a :: (sep ++ r2)).
      cbn [split_once].
      change (a :: sep ++ r1) with ((a :: sep) ++ r1).
      change (a :: sep ++ r2) with ((a :: sep) ++ r2).
      now rewrite !starts_with_self.
  - cbn [app split_once].
    assert (E : forall r, starts_with sep (c :: b ++ sep ++ r) =
                          starts_with sep (c :: b ++ sep)).
    { intros r. change (c :: b ++ sep ++ r) with ((c :: b) ++ sep ++ r).
      rewrite app_assoc. apply starts_with_long.
      cbn [length]. rewrite length_app. lia. }
    rewrite !E. destruct (starts_with sep (c :: b ++ sep)); [reflexivity|].
    destruct (split_once sep (b ++ sep ++ r1)) as [x1 y1].
    destruct (split_once sep (b ++ sep ++ r2)) as [x2 y2].
    cbn [fst] in *. now rewrite IH.
Qed.

(** Two lines made of the same non-blank text before a delimiter and of
    any two non-blank descriptions after it have the same label and the
    same indentation. *)
Lemma parsed_alike_variants prefix d1 d2 :
  is_blank prefix = false -> is_blank d1 = false -> is_blank d2 = false ->
  parsed_alike (prefix ++ py " - " ++ d1) (prefix ++ py " - " ++ d2).
Proof.
  intros Bp B1 B2. split.
  - unfold parse_line, strip. cbn [fst].
    rewrite !lstrip_app by assumption.
    rewrite !rstrip_app by
      (rewrite ?is_blank_app; assumption || (rewrite ?B1, ?B2; apply andb_false_r)).
    now rewrite (split_once_before (py " - ") (lstrip prefix)
                   (rstrip d1) (rstrip d2)).
  - rewrite !get_indentation_level_leading.
    now rewrite !leading_spaces_app.
Qed.

(** A description made of whitespace only takes the delimiter with it. *)
Remark blank_description_changes_label :
  parse_line (py "A - x") = (py "A", py "x")
  /\ parse_line (py "A - ") = (py "A -", []).
Proof. split; reflexivity. Qed.

End Variants.

(** ** Scenarios of the specification *)

(** An indentation of two levels right under the root is clamped to 1. *)
Example malformed_jump :
  get_indentation_level (py "        Deep") = 2
  /\ node_depths [py "Root"; py "        Deep"] = [0; 1].
Proof. split; reflexivity. Qed.

(** Without delimiter the description is empty; with several, the line is
    split at the first one. *)
Example delimiter_split :
  parse_line (py "  Only a label  ") = (py "Only a label", [])
  /\ parse_line (py "  ChildA - descA - more ") = (py "ChildA", py "descA - more").
Proof. split; reflexivity. Qed.

(** A non-breaking space indents like a space. *)
Example non_breaking_indent :
  get_indentation_level ([NBSP; SPACE; NBSP; NBSP] ++ py "x") = 1.
Proof. reflexivity. Qed.

(** An input with nodes gives a text with a root, branches and rows. *)
Example output_with_nodes :
  occurs (py "\node") (main scenario) = true
  /\ occurs (py "child") (main scenario) = true
  /\ occurs (py "\midrule") (main scenario) = true.
Proof. repeat split. Qed.

(** The braces of the text are balanced for labels without braces, and a
    brace in a label is copied as it is. *)
Example braces_of_scenario :
  count_char LBRACE (concat (map render (emitted scenario_by_four))) = 6
  /\ count_char RBRACE (concat (map render (emitted scenario_by_four))) = 6
  /\ count_char LBRACE (concat (map render (emitted [py "Root"; py "a{b"]))) = 3
  /\ count_char RBRACE (concat (map render (emitted [py "Root"; py "a{b"]))) = 2.
Proof. repeat split. Qed.

(** * Further properties of the code *)

(** ** The parser of one line *)

Section ParseLine.

Lemma lstrip_idem s : lstrip (lstrip s) = lstrip s.
Proof.
  destruct (lstrip s) as [|c t] eqn:E; [reflexivity|].
  pose proof (lstrip_head s E) as Hc.
  unfold lstrip. cbn [drop_while]. now rewrite Hc.
Qed.

Lemma strip_idem s : strip (strip s) = strip s.
Proof.
  unfold strip. now rewrite lstrip_rstrip, lstrip_idem, rstrip_idem.
Qed.

Lemma starts_with_app p x y :
  starts_with p x = true -> starts_with p (x ++ y) = true.
Proof.
  revert x. induction p as [|a p IH]; intros x H; [reflexivity|].
  destruct x as [|b x]; [discriminate|].
  cbn [app starts_with] in *. apply andb_true_iff in H as [-> H].
  now rewrite IH.
Qed.

Lemma starts_with_skipn p s :
  starts_with p s = true -> s = p ++ skipn (length p) s.
Proof.
  revert s. induction p as [|a p IH]; intros s H; [reflexivity|].
  destruct s as [|b s]; [discriminate|].
  cbn [starts_with] in H. apply andb_true_iff in H as [E H].
  apply N.eqb_eq in E. subst b. cbn [length skipn app]. f_equal. now apply IH.
Qed.

Lemma occurs_app_l p x y : occurs p x = true -> occurs p (x ++ y) = true.
Proof.
  induction x as [|c x IH]; intros H.
  - cbn [occurs] in H. rewrite orb_false_r in H.
    destruct p; [|discriminate]. now destruct y.
  - cbn [occurs app] in *. apply orb_true_iff in H as [H|H].
    + change (c :: x ++ y) with ((c :: x) ++ y).
      now rewrite (starts_with_app p (c :: x) y H).
    + rewrite (IH H). apply orb_true_r.
Qed.

Lemma occurs_cons p c s : occurs p s = true -> occurs p (c :: s) = true.
Proof. intros H. cbn [occurs]. rewrite H. apply orb_true_r. Qed.

Lemma occurs_drop_while p f s :
  occurs p (drop_while f s) = true -> occurs p s = true.
Proof.
  induction s as [|c s IH]; [trivial|].
  cbn [drop_while]. destruct (f c); [|trivial].
  intros H. apply occurs_cons. now apply IH.
Qed.

Lemma rstrip_prefix s : exists t, s = rstrip s ++ t.
Proof.
  induction s as [|c s [t IH]]; [now exists []|].
  cbn [rstrip]. destruct (rstrip s) as [|r rs].
  - destruct (isspace c).
    + now exists (c :: s).
    + exists s. reflexivity.
  - exists t. change (c :: s = c :: ((r :: rs) ++ t)). now f_equal.
Qed.

Lemma occurs_strip p s : occurs p (strip s) = true -> occurs p s = true.
Proof.
  unfold strip, lstrip. intros H. apply (occurs_drop_while p isspace).
  destruct (rstrip_prefix (drop_while isspace s)) as [t E].
  rewrite E. now apply occurs_app_l.
Qed.

(** Where [split_once] finds the delimiter, it is its first occurrence;
    where it finds none, there is none. *)
Lemma split_once_found s : forall b a,
  split_once (py " - ") s = (b, Some a) ->
  s = b ++ py " - " ++ a /\ occurs (py " - ") (b ++ py " -") = false.
Proof.
  induction s as [|c s IH]; intros b a H; [discriminate|].
  cbn [split_once] in H.
  destruct (starts_with (py " - ") (c :: s)) eqn:E.
  - injection H as <- <-. split; [|reflexivity].
    now apply starts_with_skipn.
  - destruct (split_once (py " - ") s) as [b' a'] eqn:R.
    injection H as <- ->. destruct (IH b' a eq_refl) as [Hs Ho].
    split; [cbn [app]; now rewrite <- Hs|].
    cbn [app occurs]. rewrite Ho, orb_false_r.
    destruct (starts_with (py " - ") (c :: b' ++ py " -")) eqn:F;
      [|reflexivity].
    rewrite <- E, Hs.
    replace (c :: b' ++ py " - " ++ a)
      with ((c :: b' ++ py " -") ++ SPACE :: a).
    2:{ cbn [app]. f_equal. now rewrite <- app_assoc. }
    symmetry. apply starts_with_app. exact F.
Qed.

Lemma split_once_missing s : forall b,
  split_once (py " - ") s = (b, None) ->
  b = s /\ occurs (py " - ") s = false.
Proof.
  induction s as [|c s IH]; intros b H.
  - injection H as <-. now split.
  - cbn [split_once] in H.
    destruct (starts_with (py " - ") (c :: s)) eqn:E; [discriminate|].
    destruct (split_once (py " - ") s) as [b' a'] eqn:R.
    injection H as <- ->. destruct (IH b' eq_refl) as [-> Ho].
    split; [reflexivity|]. cbn [occurs]. now rewrite E, Ho.
Qed.

Lemma parse_line_shape_aux (line : str) :
  (occurs (py " - ") (strip line) = false
   /\ parse_line line = (strip (strip line), []))
  \/ (exists before after,
        strip line = before ++ py " - " ++ after
        /\ occurs (py " - ") (before ++ py " -") = false
        /\ parse_line line = (strip before, strip after)).
Proof.
  unfold parse_line.
  destruct (split_once (py " - ") (strip line)) as [b [a|]] eqn:S.
  - right. exists b, a. destruct (split_once_found _ S) as [E O].
    now repeat split.
  - left. now destruct (split_once_missing _ S) as [-> O].
Qed.

End ParseLine.

(** X1. The label and the description that [parse_line] returns are already
    stripped; the label is empty exactly for a blank line, and then the
    description is empty too. *)
Theorem parse_line_trimmed (line : str) :
  strip (fst (parse_line line)) = fst (parse_line line)
  /\ strip (snd (parse_line line)) = snd (parse_line line)
  /\ match parse_line line with
     | ([], description) => description = [] /\ is_blank line = true
     | (_ :: _, _) => is_blank line = false
     end.
Proof.
  split; [|split].
  - unfold parse_line. cbn [fst]. apply strip_idem.
  - unfold parse_line. cbn [snd].
    destruct (snd (split_once (py " - ") (strip line))); [apply strip_idem|].
    reflexivity.
  - pose proof (label_nil_iff line) as L.
    destruct (parse_line line) as [[|c label] description] eqn:P;
      cbn [fst] in L.
    + assert (B : is_blank line = true) by now apply L.
      split; [|exact B].
      apply strip_nil_iff in B. unfold parse_line in P. rewrite B in P.
      now injection P as <-.
    + destruct (is_blank line); [|reflexivity].
      discriminate (proj2 L eq_refl).
Qed.

(** X2. [parse_line] splits the stripped line at the first delimiter and
    nowhere else: without delimiter the whole stripped line is the label and
    the description is empty; otherwise the stripped line is the text before
    the first delimiter, the delimiter and the text after it, and label and
    description are these two texts, stripped. *)
Theorem parse_line_shape (line : str) :
  (occurs (py " - ") (strip line) = false
   /\ parse_line line = (strip line, []))
  \/ (exists before after,
        strip line = before ++ py " - " ++ after
        /\ occurs (py " - ") (before ++ py " -") = false
        /\ parse_line line = (strip before, strip after)).
Proof.
  destruct (parse_line_shape_aux line) as [[N P]|H]; [left|right; exact H].
  split; [exact N|]. now rewrite P, strip_idem.
Qed.

(** X3. The label never holds the delimiter, whatever the line; only the
    description can. *)
Theorem label_without_delimiter (line : str) :
  occurs (py " - ") (fst (parse_line line)) = false.
Proof.
  destruct (occurs (py " - ") (fst (parse_line line))) eqn:O; [|reflexivity].
  destruct (parse_line_shape_aux line) as [[N P]|(b & a & E & F & P)];
    rewrite P in O; cbn [fst] in O.
  - rewrite strip_idem in O. congruence.
  - apply occurs_strip in O.
    apply (occurs_app_l _ _ (py " -")) in O. congruence.
Qed.

(** ** Indentation level *)

Lemma leading_spaces_indent indent rest :
  forallb is_indent indent = true ->
  match rest with [] => True | c :: _ => is_indent c = false end ->
  leading_spaces (indent ++ rest) = length indent.
Proof.
  intros Hi Hr. unfold leading_spaces.
  induction indent as [|x indent IH].
  - destruct rest as [|c rest]; [reflexivity|].
    cbn [app count_while]. fold (is_indent c). now rewrite Hr.
  - cbn [forallb] in Hi. apply andb_true_iff in Hi as [Hx Hi].
    cbn [app count_while length]. fold (is_indent x). rewrite Hx.
    now rewrite IH.
Qed.

(** X4. The indentation level of a line is the length of its leading run of
    spaces and non-breaking spaces, divided by 4 and rounded down: the run
    ends at the first other character, a tab included, and nothing after
    that character counts. *)
Theorem indentation_counts_indent (indent rest : str) :
  forallb is_indent indent = true ->
  match rest with [] => True | c :: _ => is_indent c = false end ->
  get_indentation_level (indent ++ rest) = length indent / 4.
Proof.
  intros Hi Hr.
  now rewrite get_indentation_level_leading, leading_spaces_indent.
Qed.

Lemma indentation_counts_indent_witness :
  get_indentation_level
    ([SPACE; NBSP; SPACE; SPACE; SPACE] ++ 9%N :: py "    x") = 1.
Proof.
  apply (indentation_counts_indent
           [SPACE; NBSP; SPACE; SPACE; SPACE] (9%N :: py "    x"));
    reflexivity.
Defined.

(** ** Rows of the table *)

(** X5. The rows of the table follow the input: the first row is made of
    the label and the description parsed from the first line, and the rows
    after it of those parsed from the non-blank lines that follow, in their
    order; the lines of the table block are the head, each row followed by
    a rule, and the three closing lines. *)
Theorem table_rows_in_order (line0 : str) (rest : list str) :
  let kept := line0 :: non_blank_lines rest in
  let row l := table_row (Item (fst (parse_line l)) (snd (parse_line l))) in
  table_rows (table_of (line0 :: rest)) = map row kept
  /\ table_lines (table_of (line0 :: rest)) =
       table_head
       ++ flat_map (fun l => [row l; py "    \midrule"]) kept
       ++ [py "    \bottomrule"; py "\end{longtable}"; py "}"].
Proof.
  cbn zeta.
  assert (T : table_of (line0 :: rest) =
              map (fun l => Item (fst (parse_line l)) (snd (parse_line l)))
                  (line0 :: non_blank_lines rest)).
  { unfold table_of. rewrite run_cons, table_data_fold.
    cbn [after_root table_data app map]. unfold root_item.
    rewrite parse_line_rstrip. destruct (parse_line line0) as [a b].
    cbn [fst snd]. f_equal. apply map_ext. intros l. unfold item_of.
    now rewrite parse_line_rstrip. }
  unfold table_rows, table_lines. rewrite T, map_map. split; [reflexivity|].
  f_equal. f_equal.
  rewrite !flat_map_concat_map, map_map. reflexivity.
Qed.

(** ** Escaped cells *)

Section Cells.

Lemma bare_count_app c x y : forall escaped,
  bare_count c escaped (x ++ y) =
    bare_count c escaped x + bare_count c (escape_state escaped x) y.
Proof.
  induction x as [|a x IH]; intros escaped; [reflexivity|].
  cbn [app bare_count escape_state]. rewrite IH. lia.
Qed.

Lemma escape_state_app x y : forall escaped,
  escape_state escaped (x ++ y) = escape_state (escape_state escaped x) y.
Proof.
  induction x as [|a x IH]; intros escaped; [reflexivity|].
  cbn [app escape_state]. apply IH.
Qed.

(** One of the three signs that a cell escapes with a backslash. *)
Variable c : char.
Hypothesis c_sign : c = AMPERSAND \/ c = PERCENT \/ c = UNDERSCORE.

Lemma escape_char_bare x :
  bare_count c false (escape_char x) = 0
  /\ escape_state false (escape_char x) = false.
Proof.
  unfold escape_char.
  destruct (N.eqb_spec x BACKSLASH) as [->|H1];
    [destruct c_sign as [->|[->| ->]]; now split|].
  destruct (N.eqb_spec x AMPERSAND) as [->|H2];
    [destruct c_sign as [->|[->| ->]]; now split|].
  destruct (N.eqb_spec x PERCENT) as [->|H3];
    [destruct c_sign as [->|[->| ->]]; now split|].
  destruct (N.eqb_spec x UNDERSCORE) as [->|H4];
    [destruct c_sign as [->|[->| ->]]; now split|].
  cbn [bare_count escape_state].
  rewrite (proj2 (N.eqb_neq x BACKSLASH)) by assumption.
  replace (x =? c)%N with false; [now split|].
  symmetry. apply N.eqb_neq. destruct c_sign as [->|[->| ->]]; assumption.
Qed.

Lemma escape_cell_bare s :
  bare_count c false (escape_cell s) = 0
  /\ escape_state false (escape_cell s) = false.
Proof.
  rewrite escape_cell_chars.
  induction s as [|x s [IH1 IH2]]; [now split|].
  cbn [flat_map]. destruct (escape_char_bare x) as [E1 E2].
  rewrite bare_count_app, escape_state_app, E1, E2. now split.
Qed.

Lemma table_row_bare it :
  bare_count c false (table_row it) = bare_count c false (py " & ").
Proof.
  unfold table_row.
  destruct (escape_cell_bare (node it)) as [N1 N2].
  destruct (escape_cell_bare (desc it)) as [D1 D2].
  rewrite bare_count_app.
  change (escape_state false (py "    ")) with false.
  rewrite bare_count_app, N1, N2, bare_count_app.
  change (escape_state false (py " & ")) with false.
  rewrite bare_count_app, D1, D2.
  destruct c_sign as [->|[->| ->]]; reflexivity.
Qed.

End Cells.

(** X6. Whatever the label and the description, a table row holds exactly
    one ampersand that is not escaped, the column separator, and no percent
    sign and no underscore that is not escaped. *)
Theorem one_separator_per_row (it : item) :
  bare_count AMPERSAND false (table_row it) = 1
  /\ bare_count PERCENT false (table_row it) = 0
  /\ bare_count UNDERSCORE false (table_row it) = 0.
Proof.
  split; [|split]; rewrite table_row_bare by tauto; reflexivity.
Qed.

Lemma unescape_escape_char x rest :
  unescape 0 (escape_char x ++ rest) = x :: unescape 0 rest.
Proof.
  unfold escape_char.
  destruct (N.eqb_spec x BACKSLASH) as [->|H1]; [reflexivity|].
  destruct (N.eqb_spec x AMPERSAND) as [->|H2]; [reflexivity|].
  destruct (N.eqb_spec x PERCENT) as [->|H3]; [reflexivity|].
  destruct (N.eqb_spec x UNDERSCORE) as [->|H4]; [reflexivity|].
  cbn [app unescape].
  now rewrite (proj2 (N.eqb_neq x BACKSLASH)) by assumption.
Qed.

Lemma unescape_escape_cell s : unescape 0 (escape_cell s) = s.
Proof.
  rewrite escape_cell_chars.
  induction s as [|x s IH]; [reflexivity|].
  cbn [flat_map]. now rewrite unescape_escape_char, IH.
Qed.

(** X7. The escaping of a table cell loses nothing: the text of the cell
    is read back from its escaped form, so two different texts never give
    the same cell. *)
Theorem escape_cell_injective (s t : str) :
  unescape 0 (escape_cell s) = s
  /\ (escape_cell s = escape_cell t -> s = t).
Proof.
  split; [apply unescape_escape_cell|].
  intros E. rewrite <- (unescape_escape_cell s), <- (unescape_escape_cell t).
  now rewrite E.
Qed.

Lemma escape_cell_injective_witness :
  unescape 0 (escape_cell (py "a\&b_c%")) = py "a\&b_c%"
  /\ py "50%" = py "50%".
Proof.
  destruct (escape_cell_injective (py "a\&b_c%") (py "a\&b_c%")) as [H _].
  destruct (escape_cell_injective (py "50%") (py "50%")) as [_ I].
  split; [exact H|]. apply I. reflexivity.
Defined.

(** ** The whole document *)

(** X8. [generate_tikz_code] returns the empty text for the empty input and
    for no other; [main] never writes an empty text: for every input, empty
    or not, what it writes starts with the header and ends with the footer,
    and for a non-empty input it is the text of [generate_tikz_code]. *)
Theorem main_wrapped (input_lines : list str) :
  (exists body,
     main input_lines = LATEX_START_TEMPLATE ++ body ++ LATEX_END)
  /\ match input_lines with
     | [] => generate_tikz_code input_lines = []
     | _ :: _ =>
         main input_lines = generate_tikz_code input_lines
         /\ 0 < length (generate_tikz_code input_lines)
     end.
Proof.
  destruct input_lines as [|line0 rest].
  - split; [now exists [LF]|reflexivity].
  - split; [|split; [reflexivity|]].
    + eexists. cbn [main generate_tikz_code].
      rewrite (app_assoc (root_node_definition line0)).
      rewrite (app_assoc (_ ++ _) TIKZ_END).
      rewrite (app_assoc (_ ++ _) (generate_latex_table _)).
      reflexivity.
    + cbn [generate_tikz_code]. rewrite length_app.
      unfold LATEX_START_TEMPLATE, raw_block at 1. cbn [length]. lia.
Qed.

(** ** Lines that do not count *)

Section Ignored.

Lemma fold_non_blank rest : forall e,
  fold_left process_line rest e =
    fold_left process_line (non_blank_lines rest) e.
Proof.
  induction rest as [|l ls IH]; intros e; [reflexivity|].
  rewrite non_blank_lines_cons. cbn [fold_left].
  destruct (is_blank l) eqn:B.
  - rewrite process_line_blank by assumption. apply IH.
  - cbn [fold_left]. apply IH.
Qed.

Lemma rstrip_app_blank s w : is_blank w = true -> rstrip (s ++ w) = rstrip s.
Proof.
  intros B. induction s as [|c s IH].
  - cbn [app]. now apply rstrip_nil_iff.
  - cbn [app rstrip]. now rewrite IH.
Qed.

(** Two lines that are equal up to whitespace at their end. *)
Let same_text (a b : str) : Prop := rstrip a = rstrip b.

Lemma process_line_same_text e a b :
  same_text a b -> process_line e a = process_line e b.
Proof. unfold same_text, process_line. now intros ->. Qed.

Lemma fold_same_text ls1 ls2 :
  Forall2 same_text ls1 ls2 ->
  forall e, fold_left process_line ls1 e = fold_left process_line ls2 e.
Proof.
  induction 1 as [|a b ls1 ls2 H _ IH]; intros e; [reflexivity|].
  cbn [fold_left]. now rewrite (process_line_same_text e H), IH.
Qed.

Lemma generate_same_text ls1 ls2 :
  Forall2 same_text ls1 ls2 -> generate_tikz_code ls1 = generate_tikz_code ls2.
Proof.
  destruct 1 as [|a b ls1 ls2 H Hs]; [reflexivity|].
  cbn [generate_tikz_code].
  assert (R : root_item a = root_item b) by (unfold root_item; now rewrite H).
  unfold root_node_definition, after_root.
  now rewrite R, (fold_same_text Hs).
Qed.

End Ignored.

(** X9. Blank lines after the first line change nothing: the text
    generated for an input is the text generated for its first line and
    the non-blank lines after it. *)
Theorem blank_lines_ignored (line0 : str) (rest : list str) :
  generate_tikz_code (line0 :: rest) =
    generate_tikz_code (line0 :: non_blank_lines rest)
  /\ main (line0 :: rest) = main (line0 :: non_blank_lines rest).
Proof.
  assert (G : generate_tikz_code (line0 :: rest) =
              generate_tikz_code (line0 :: non_blank_lines rest)).
  { cbn [generate_tikz_code]. now rewrite <- fold_non_blank. }
  split; [exact G|]. cbn [main]. exact G.
Qed.

(** X10. Whitespace at the end of the lines, the line terminators left by
    [readlines] among it, changes nothing: two inputs whose lines are the
    same up to blank text added at their end give the same document. *)
Theorem trailing_whitespace_ignored (lines1 lines2 : list str) :
  Forall2 (fun a b => exists w, is_blank w = true /\ b = a ++ w)
          lines1 lines2 ->
  generate_tikz_code lines1 = generate_tikz_code lines2
  /\ main lines1 = main lines2.
Proof.
  intros H.
  assert (G : generate_tikz_code lines1 = generate_tikz_code lines2).
  { apply generate_same_text.
    induction H as [|a b ls1 ls2 (w & B & ->) _ IH]; constructor;
      [|exact IH].
    symmetry. now apply rstrip_app_blank. }
  split; [exact G|].
  destruct H as [|a b ls1 ls2 _ _]; [reflexivity|exact G].
Qed.

Lemma trailing_whitespace_ignored_witness :
  main [py "Root - r"; py "    A"; py "B"] =
    main [py "Root - r" ++ [13%N; LF]; py "    A" ++ [LF]; py "B" ++ py "   "].
Proof.
  refine (proj2 (@trailing_whitespace_ignored
                   [py "Root - r"; py "    A"; py "B"]
                   [py "Root - r" ++ [13%N; LF]; py "    A" ++ [LF];
                    py "B" ++ py "   "] _)).
  repeat constructor.
  - exists [13%N; LF]. now split.
  - exists [LF]. now split.
  - exists (py "   "). now split.
Defined.

(** ** Depths and counts over a whole input *)

Section Whole.

Lemma concept_depths_run line0 rest :
  concept_depths (emitted (line0 :: rest)) =
    clamped_depths 0 (non_blank_lines rest).
Proof.
  unfold emitted. rewrite run_cons, concept_depths_close_remaining.
  now rewrite (proj1 (depths_fold rest (after_root line0))).
Qed.

Lemma clamped_depths_nth lines : forall c i d,
  nth_error (clamped_depths c lines) i = Some d -> 1 <= d <= c + i + 1.
Proof.
  induction lines as [|l ls IH]; intros c i d H.
  - now destruct i.
  - pose proof (clamped_depth_bounds c l) as B.
    destruct i as [|i]; cbn [clamped_depths nth_error] in H.
    + injection H as <-. lia.
    + apply IH in H. lia.
Qed.

Lemma counted_step e line : counted e -> counted (process_line e line).
Proof.
  intros (H1 & H2 & H3).
  destruct (is_blank line) eqn:B.
  - rewrite process_line_blank by assumption. now repeat split.
  - child_node e line B d Hd. unfold counted.
    cbn [tikz_nodes table_data current_depth].
    autorewrite with chunks. rewrite !length_app. cbn [length].
    repeat split; lia.
Qed.

Lemma counted_run line0 rest :
  counted (fold_left process_line rest (after_root line0)).
Proof.
  apply fold_process_ind.
  - intros; now apply counted_step.
  - repeat split; cbn; lia.
Qed.

Lemma table_data_length line0 rest :
  length (table_data (fold_left process_line rest (after_root line0))) =
    1 + length (non_blank_lines rest).
Proof. rewrite table_data_fold, length_app, length_map. reflexivity. Qed.

Lemma clamped_depths_well_indented lines : forall c,
  well_indented c lines <->
  clamped_depths c lines = map get_indentation_level lines.
Proof.
  induction lines as [|l ls IH]; intros c; cbn [well_indented clamped_depths map].
  - tauto.
  - pose proof (clamped_depth_bounds c l) as B.
    assert (E : 1 <= get_indentation_level l <= c + 1 <->
                clamped_depth c l = get_indentation_level l).
    { unfold clamped_depth in *.
      rewrite <- get_indentation_level_leading in *. lia. }
    split.
    + intros [Hl Hs]. apply E in Hl. rewrite Hl. f_equal. now apply IH.
    + intros H. injection H as Hd Hs. split; [now apply E|].
      apply IH. now rewrite <- Hd at 1.
Qed.

End Whole.

(** X11. The depth of a child node never exceeds its rank among the child
    nodes: the i-th child (from 0) has a depth between 1 and i + 1, and the
    depth left at the end of the loop, the number of closings written
    last, is at most the number of child nodes. *)
Theorem depth_at_most_rank (line0 : str) (rest : list str) :
  (forall i d,
     nth_error (concept_depths (emitted (line0 :: rest))) i = Some d ->
     1 <= d <= i + 1)
  /\ current_depth (fold_left process_line rest (after_root line0))
     <= length (non_blank_lines rest).
Proof.
  split.
  - intros i d H. rewrite concept_depths_run in H.
    apply clamped_depths_nth in H. lia.
  - destruct (counted_run line0 rest) as (_ & _ & H).
    rewrite table_data_length in H. lia.
Qed.

Lemma depth_at_most_rank_witness :
  let rest := [py "            A"; py ""; py "            B"; py "            C"] in
  nth_error (concept_depths (emitted (py "Root" :: rest))) 1 = Some 2
  /\ 1 <= 2 <= 1 + 1.
Proof.
  intros rest.
  assert (H : nth_error (concept_depths (emitted (py "Root" :: rest))) 1
              = Some 2) by reflexivity.
  split; [exact H|].
  exact (proj1 (depth_at_most_rank (py "Root") rest) 1 2 H).
Defined.

(** One opening, one closing, one node and one table row for each
    non-blank line after the first. *)
Lemma chunks_per_child (line0 : str) (rest : list str) :
  let lines := line0 :: rest in
  let children := length (non_blank_lines rest) in
  opened (emitted lines) = children
  /\ closed (emitted lines) = children
  /\ length (concept_depths (emitted lines)) = children
  /\ length (table_rows (table_of lines)) = children + 1.
Proof.
  cbn zeta. unfold emitted, table_of, table_rows. rewrite run_cons.
  destruct (counted_run line0 rest) as (H1 & H2 & _).
  pose proof (balanced_run (line0 :: rest) (run_cons line0 rest)) as Hb.
  unfold balanced in Hb.
  rewrite table_data_length in *. autorewrite with chunks.
  rewrite length_map, table_data_length.
  repeat split; lia.
Qed.

(** X13. The clamping leaves a well indented outline as it is, and only
    such an outline: the depths of the child nodes are the indentation
    levels of their lines exactly when every non-blank line after the first
    is indented by at least one level and by at most one level more than
    the line before it, the first line counting as level 0. *)
Theorem well_indented_kept (line0 : str) (rest : list str) :
  well_indented 0 (non_blank_lines rest) <->
  concept_depths (emitted (line0 :: rest)) =
    map get_indentation_level (non_blank_lines rest).
Proof.
  rewrite concept_depths_run. apply clamped_depths_well_indented.
Qed.

Lemma well_indented_kept_witness :
  let rest := [py "    A"; py "        B"; py "  "; py "            C";
               py "    D"] in
  well_indented 0 (non_blank_lines rest)
  /\ concept_depths (emitted (py "Root" :: rest)) = [1; 2; 3; 1].
Proof.
  intros rest.
  assert (W : well_indented 0 (non_blank_lines rest)).
  { vm_compute. repeat split; lia. }
  split; [exact W|].
  exact (proj1 (well_indented_kept (py "Root") rest) W).
Defined.

(** ** Labels of the nodes *)

Section Labels.

Lemma tikz_char_replaced x :
  flat_map (fun y => if (UNDERSCORE =? y)%N then py "\_" else [y])
    (flat_map (fun y => if (PERCENT =? y)%N then py "\%" else [y])
       (if (AMPERSAND =? x)%N then py "\&" else [x])) = tikz_char x.
Proof.
  unfold tikz_char.
  destruct (N.eqb_spec x AMPERSAND) as [->|H1]; [reflexivity|].
  destruct (N.eqb_spec x PERCENT) as [->|H2]; [reflexivity|].
  destruct (N.eqb_spec x UNDERSCORE) as [->|H3]; [reflexivity|].
  rewrite (proj2 (N.eqb_neq AMPERSAND x)) by congruence. cbn [flat_map app].
  rewrite (proj2 (N.eqb_neq PERCENT x)) by congruence. cbn [flat_map app].
  now rewrite (proj2 (N.eqb_neq UNDERSCORE x)) by congruence.
Qed.

Lemma safe_concept_chars s : safe_concept_of s = flat_map tikz_char s.
Proof.
  unfold safe_concept_of. rewrite !replace_char.
  match goal with
  | |- flat_map ?f3 (flat_map ?f2 (flat_map ?f1 s)) = _ =>
      set (g3 := f3); set (g2 := f2); set (g1 := f1)
  end.
  induction s as [|x s IH]; [reflexivity|].
  cbn [flat_map]. rewrite !flat_map_app.
  f_equal; [exact (tikz_char_replaced x)|exact IH].
Qed.

Lemma root_char_replaced x :
  flat_map (fun y => if (SPACE =? y)%N then py "\\ " else [y])
    (flat_map (fun y => if (PERCENT =? y)%N then py "\%" else [y])
       (if (AMPERSAND =? x)%N then py "\&" else [x])) = root_char x.
Proof.
  unfold root_char.
  destruct (N.eqb_spec x AMPERSAND) as [->|H1]; [reflexivity|].
  destruct (N.eqb_spec x PERCENT) as [->|H2]; [reflexivity|].
  destruct (N.eqb_spec x SPACE) as [->|H3]; [reflexivity|].
  rewrite (proj2 (N.eqb_neq AMPERSAND x)) by congruence. cbn [flat_map app].
  rewrite (proj2 (N.eqb_neq PERCENT x)) by congruence. cbn [flat_map app].
  now rewrite (proj2 (N.eqb_neq SPACE x)) by congruence.
Qed.

Lemma formatted_root_chars s :
  replace [SPACE] (py "\\ ")
    (replace [PERCENT] (py "\%") (replace [AMPERSAND] (py "\&") s)) =
    flat_map root_char s.
Proof.
  rewrite !replace_char.
  match goal with
  | |- flat_map ?f3 (flat_map ?f2 (flat_map ?f1 s)) = _ =>
      set (g3 := f3); set (g2 := f2); set (g1 := f1)
  end.
  induction s as [|x s IH]; [reflexivity|].
  cbn [flat_map]. rewrite !flat_map_app.
  f_equal; [exact (root_char_replaced x)|exact IH].
Qed.

Lemma concept_labels_app a b :
  concept_labels (a ++ b) = concept_labels a ++ concept_labels b.
Proof.
  induction a as [|c a IH]; [reflexivity|].
  destruct c; cbn; now rewrite IH.
Qed.

Lemma concept_labels_fold lines : forall e,
  concept_labels (tikz_nodes (fold_left process_line lines e)) =
    concept_labels (tikz_nodes e)
    ++ map (fun l => safe_concept_of (fst (parse_line l)))
         (non_blank_lines lines).
Proof.
  induction lines as [|l ls IH]; intros e; cbn [fold_left].
  - cbn. now rewrite app_nil_r.
  - rewrite IH, non_blank_lines_cons. destruct (is_blank l) eqn:B.
    + now rewrite process_line_blank.
    + rewrite (process_line_node e l B). cbn [tikz_nodes map].
      rewrite !concept_labels_app, <- !app_assoc. f_equal.
      unfold closing_chunks, opening_chunk.
      now destruct (_ <=? _), (_ =? 1).
Qed.

End Labels.

(** X14. The escaping of the labels in the picture acts on each character
    on its own.  In the label of a child node an ampersand, a percent sign
    and an underscore get a backslash and every other character, a
    backslash included, is kept.  In the label of the root an ampersand and
    a percent sign get a backslash, each space becomes two backslashes and
    a space, and every other character, an underscore included, is kept. *)
Theorem picture_labels_escaped (s line0 : str) :
  safe_concept_of s = flat_map tikz_char s
  /\ root_node_definition line0 =
       [LF] ++ py "  \node[concept] { \textbf{"
       ++ flat_map root_char (fst (parse_line line0)) ++ py "} }".
Proof.
  split; [apply safe_concept_chars|].
  unfold root_node_definition, root_item.
  rewrite parse_line_rstrip. destruct (parse_line line0) as [a b].
  cbn [node fst]. now rewrite formatted_root_chars.
Qed.

(** The labels held by the nodes appended, in order. *)
Lemma concept_labels_run (line0 : str) (rest : list str) :
  concept_labels (emitted (line0 :: rest)) =
    map (fun l => flat_map tikz_char (fst (parse_line l)))
        (non_blank_lines rest).
Proof.
  unfold emitted. rewrite run_cons.
  assert (R : forall e, concept_labels (close_remaining e) =
                        concept_labels (tikz_nodes e)).
  { intros e. unfold close_remaining.
    destruct (0 <? current_depth e); [|reflexivity].
    rewrite concept_labels_app. cbn. apply app_nil_r. }
  rewrite R, concept_labels_fold. cbn [after_root tikz_nodes app concept_labels].
  apply map_ext. intros l. apply safe_concept_chars.
Qed.

(** ** Nodes inside their branches *)

Section Nesting.

Lemma concept_split_app (a b pre : list chunk) d s post :
  a ++ b = pre ++ Concept d s :: post ->
  (exists post', a = pre ++ Concept d s :: post')
  \/ (exists pre', pre = a ++ pre' /\ b = pre' ++ Concept d s :: post).
Proof.
  intros H. apply app_eq_app in H as [l [[Ha Hb]|[Hp Hb]]].
  - destruct l as [|c l].
    + right. exists []. rewrite app_nil_r in Ha. subst a.
      now rewrite app_nil_r.
    + injection Hb as <- _. left. now exists l.
  - right. now exists l.
Qed.

Lemma new_node_split c d0 k s0 pre d s post :
  closing_chunks c d0 ++ [opening_chunk d0 k; Concept d0 s0] =
    pre ++ Concept d s :: post ->
  pre = closing_chunks c d0 ++ [opening_chunk d0 k] /\ d = d0.
Proof.
  unfold closing_chunks, opening_chunk.
  destruct (d0 <=? c), (d0 =? 1); cbn [app];
    destruct pre as [|x [|y [|z [|w pre]]]]; cbn [app];
    intros H; try discriminate H;
    injection H as <-; subst; try discriminate; now split.
Qed.

Lemma nesting_open c d k :
  1 <= d <= c + 1 ->
  nesting c (closing_chunks c d ++ [opening_chunk d k]) = Some d.
Proof.
  intros Hd. unfold closing_chunks, opening_chunk.
  destruct (Nat.leb_spec d c) as [Hle|Hgt], (d =? 1);
    cbn [app nesting closes_of opens_of Nat.leb].
  1,2: destruct (Nat.leb_spec (c - d + 1) c) as [_|Hc]; [|lia].
  all: f_equal; lia.
Qed.

Lemma nodes_nested_step e line :
  nested e /\ nodes_nested (tikz_nodes e) ->
  nested (process_line e line) /\ nodes_nested (tikz_nodes (process_line e line)).
Proof.
  intros [Hn Hq]. split; [now apply nested_step|].
  destruct (is_blank line) eqn:B.
  - now rewrite process_line_blank.
  - child_node e line B d0 Hd. intros pre d s post H.
    apply concept_split_app in H as [[post' Ha]|(pre' & -> & Hb)].
    + exact (Hq _ _ _ _ Ha).
    + apply new_node_split in Hb as [-> ->].
      unfold nested in Hn. rewrite nesting_app, Hn. now apply nesting_open.
Qed.

Lemma nodes_nested_run line0 rest :
  nodes_nested (emitted (line0 :: rest)).
Proof.
  unfold emitted. rewrite run_cons.
  assert (H : nested (fold_left process_line rest (after_root line0))
              /\ nodes_nested
                   (tikz_nodes (fold_left process_line rest (after_root line0)))).
  { apply (fold_process_ind (fun e => nested e /\ nodes_nested (tikz_nodes e))).
    - intros; now apply nodes_nested_step.
    - split; [reflexivity|]. intros [|x pre] d s post H; discriminate H. }
  destruct H as [_ Hq]. unfold close_remaining.
  destruct (0 <? current_depth _); [|exact Hq].
  intros pre d s post H.
  apply concept_split_app in H as [[post' Ha]|(pre' & _ & Hb)].
  - exact (Hq _ _ _ _ Ha).
  - destruct pre' as [|x [|y pre']]; discriminate Hb.
Qed.

End Nesting.

(** Before a node of depth [d], the strings appended leave [d] branches
    open. *)
Lemma nodes_nested_emitted (lines : list str) pre d s post :
  emitted lines = pre ++ Concept d s :: post ->
  nesting 0 pre = Some d.
Proof.
  destruct lines as [|line0 rest].
  - destruct pre; discriminate.
  - apply nodes_nested_run.
Qed.

(** ** Order of the depths *)

(** X17. The depth given to a line grows with its indentation and with the
    depth of the node before it: a line indented at least as much as
    another, met at a current depth at least as large, gets a depth at
    least as large; and a line indented by less than one level is treated
    as a line indented by one level. *)
Theorem child_depth_monotone (c1 c2 : nat) (a b : str) :
  get_indentation_level a <= get_indentation_level b ->
  c1 <= c2 ->
  child_depth c1 a <= child_depth c2 b
  /\ (get_indentation_level a = 0 ->
      get_indentation_level b = 1 ->
      child_depth c1 a = child_depth c1 b).
Proof.
  intros Hl Hc. unfold child_depth. split.
  - destruct (Nat.ltb_spec (c1 + 1) (Nat.max 1 (get_indentation_level a))),
             (Nat.ltb_spec (c2 + 1) (Nat.max 1 (get_indentation_level b)));
      lia.
  - intros Ha Hb. now rewrite Ha, Hb.
Qed.

Lemma child_depth_monotone_witness :
  child_depth 1 (py "  a") <= child_depth 2 (py "            b")
  /\ child_depth 1 (py "  a") = child_depth 1 (py "    b").
Proof.
  split.
  - apply (@child_depth_monotone 1 2 (py "  a") (py "            b"));
      vm_compute; lia.
  - apply (@child_depth_monotone 1 1 (py "  a") (py "    b"));
      try reflexivity; vm_compute; lia.
Defined.

(** * The strings written *)

(** ** Reading one string *)

Section Reading.

Lemma indent_times d rest :
  match rest with [] => True | c :: _ => (SPACE =? c)%N = false end ->
  indent_of (times (py "    ") d ++ rest) = 4 * d
  /\ after_indent (times (py "    ") d ++ rest) = rest.
Proof.
  intros H. unfold indent_of, after_indent.
  induction d as [|d [IH1 IH2]].
  - cbn [times app]. destruct rest as [|c rest]; [now split|].
    cbn [count_while drop_while]. now rewrite H.
  - change (times (py "    ") (S d) ++ rest)
      with (SPACE :: SPACE :: SPACE :: SPACE :: (times (py "    ") d ++ rest)).
    cbn [count_while drop_while]. rewrite !N.eqb_refl, IH1, IH2.
    split; [lia|reflexivity].
Qed.

Lemma closings_head n tail :
  match times (py "} ") n ++ LF :: tail with
  | [] => True
  | c :: _ => (SPACE =? c)%N = false
  end.
Proof. now destruct n. Qed.

Lemma after_indent_render c :
  after_indent (render c) =
    match c with
    | Closing _ n => times (py "} ") n ++ [LF]
    | ChildGrow _ a => py "child[grow=" ++ str_of_nat a ++ py "] {" ++ [LF]
    | Child _ => py "child {" ++ [LF]
    | Concept _ s => py "node[concept] {" ++ s ++ py "}"
    | Remaining n => times (py "} ") n
    end.
Proof.
  destruct c as [d n|d a|d|d s|n]; cbn [render].
  - apply indent_times, closings_head.
  - now apply indent_times.
  - now apply indent_times.
  - now apply indent_times.
  - now destruct n.
Qed.

Lemma indent_of_render c :
  indent_of (render c) =
    match c with
    | Closing d _ | ChildGrow d _ | Child d => 4 * d
    | Concept d _ => 4 * (d + 1)
    | Remaining _ => 0
    end.
Proof.
  destruct c as [d n|d a|d|d s|n]; cbn [render].
  - apply indent_times, closings_head.
  - now apply indent_times.
  - now apply indent_times.
  - now apply indent_times.
  - now destruct n.
Qed.

Lemma text_opens_render c : text_opens (render c) = opens_of c.
Proof.
  unfold text_opens, is_opening_text. rewrite after_indent_render.
  destruct c as [d [|n]|d a|d|d s|[|n]]; reflexivity.
Qed.

Lemma is_node_text_render c :
  is_node_text (render c) = (concepts_of c =? 1).
Proof.
  unfold is_node_text. rewrite after_indent_render.
  destruct c as [d [|n]|d a|d|d s|[|n]]; reflexivity.
Qed.

Lemma text_closes_render c : text_closes (render c) = closes_of c.
Proof.
  unfold text_closes, is_closing_text. rewrite after_indent_render.
  destruct c as [d [|n]|d a|d|d s|[|n]]; try reflexivity.
  - change (starts_with [RBRACE] (times (py "} ") (S n) ++ [LF])) with true.
    cbn [render closes_of].
    rewrite !count_char_app, !count_char_times.
    change (count_char RBRACE (py "    ")) with 0.
    change (count_char RBRACE (py "} ")) with 1.
    change (count_char RBRACE [LF]) with 0. lia.
  - change (starts_with [RBRACE] (times (py "} ") (S n))) with true.
    cbn [render closes_of]. rewrite count_char_times.
    change (count_char RBRACE (py "} ")) with 1. lia.
Qed.

Lemma text_opened_render cs : text_opened (map render cs) = opened cs.
Proof.
  unfold text_opened, opened. rewrite map_map. f_equal.
  apply map_ext, text_opens_render.
Qed.

Lemma text_closed_render cs : text_closed (map render cs) = closed cs.
Proof.
  unfold text_closed, closed. rewrite map_map. f_equal.
  apply map_ext, text_closes_render.
Qed.

Lemma text_nesting_render cs : forall open,
  text_nesting open (map render cs) = nesting open cs.
Proof.
  induction cs as [|c cs IH]; intros open; [reflexivity|].
  cbn [map text_nesting nesting].
  now rewrite text_closes_render, text_opens_render, IH.
Qed.

Lemma text_opened_app a b : text_opened (a ++ b) = text_opened a + text_opened b.
Proof. unfold text_opened. now rewrite map_app, list_sum_app. Qed.

Lemma text_closed_app a b : text_closed (a ++ b) = text_closed a + text_closed b.
Proof. unfold text_closed. now rewrite map_app, list_sum_app. Qed.

End Reading.

(** ** Balanced markup *)

Lemma tikz_texts_run lines e :
  run lines = Some e ->
  tikz_texts lines =
    map render (tikz_nodes e)
    ++ (if 0 <? current_depth e
        then [times (py "} ") (current_depth e)]
        else []).
Proof.
  intros R. unfold tikz_texts, emitted. rewrite R. unfold close_remaining.
  destruct (0 <? current_depth e).
  - now rewrite map_app.
  - now rewrite app_nil_r.
Qed.

(** C2. For every input, the strings written for the branches open as many
    branches as they close: the strings that start with [child] are as many
    as the closing braces of the closing strings, and as many as the
    non-blank lines after the first.  The closing braces are those of the
    strings written between the nodes and the [current_depth] braces of the
    string written after the last node.  Read in order, no string closes a
    branch that is not open, and no branch stays open at the end. *)
Theorem branches_balanced (lines : list str) :
  let texts := tikz_texts lines in
  text_opened texts = text_closed texts
  /\ text_opened texts = length (non_blank_lines (tl lines))
  /\ text_nesting 0 texts = Some 0
  /\ (forall e,
        run lines = Some e ->
        texts =
          map render (tikz_nodes e)
          ++ (if 0 <? current_depth e
              then [times (py "} ") (current_depth e)]
              else [])
        /\ text_closed texts =
             text_closed (map render (tikz_nodes e)) + current_depth e
        /\ text_opened texts = text_opened (map render (tikz_nodes e))).
Proof.
  cbn zeta. unfold tikz_texts.
  rewrite text_opened_render, text_closed_render, text_nesting_render.
  destruct (chunks_balanced lines) as (H1 & H2 & H3).
  split; [exact H1|]. split; [|split; [exact H2|]].
  - destruct lines as [|line0 rest]; [reflexivity|].
    exact (proj1 (chunks_per_child line0 rest)).
  - intros e R. split; [exact (tikz_texts_run lines R)|].
    rewrite !text_opened_render, !text_closed_render. exact (H3 e R).
Qed.

Lemma branches_balanced_witness :
  let lines :=
    [py "Root"; py "    A"; py "        B"; py "            C"; py "D"] in
  text_opened (tikz_texts lines) = 4
  /\ text_closed (tikz_texts lines) = 4
  /\ exists e,
       run lines = Some e
       /\ tikz_texts lines = map render (tikz_nodes e) ++ [py "} "]
       /\ text_closed (map render (tikz_nodes e)) = 3.
Proof.
  intros lines.
  destruct (branches_balanced lines) as (H1 & H2 & _ & H4).
  split; [exact H2|]. split; [rewrite <- H1; exact H2|].
  exists (fold_left process_line (tl lines) (after_root (py "Root"))).
  split; [reflexivity|].
  split; [exact (proj1 (H4 _ eq_refl))|reflexivity].
Defined.

(** ** Close phase *)

(** C6. A non-blank line whose depth [d] is at most the current depth [c]
    writes first one string of (c - d) + 1 closing braces, indented by [d]
    levels, then one string that opens a branch, then the content of its
    node; a line of depth [c + 1] writes no closing string.  There is no
    other case.  Counted on the strings, the line closes (c - d) + 1
    branches or none, and opens one. *)
Theorem close_phase (e : emitter) (line : str) (B : is_blank line = false) :
  let c := current_depth e in
  let e' := process_line e line in
  let d := current_depth e' in
  let closing := times (py "    ") d ++ times (py "} ") ((c - d) + 1) ++ [LF] in
  exists opening node,
    map render (tikz_nodes e') =
      map render (tikz_nodes e)
      ++ (if d <=? c then [closing] else [])
      ++ [opening; node]
    /\ text_closes closing = (c - d) + 1
    /\ text_opens closing = 0
    /\ text_opens opening = 1 /\ text_closes opening = 0
    /\ is_node_text node = true
    /\ text_opens node = 0 /\ text_closes node = 0
    /\ (d <= c \/ d = c + 1)
    /\ (d = c + 1 ->
        map render (tikz_nodes e') =
          map render (tikz_nodes e) ++ [opening; node])
    /\ text_closed (map render (tikz_nodes e')) =
         text_closed (map render (tikz_nodes e))
         + (if d <=? c then (c - d) + 1 else 0)
    /\ text_opened (map render (tikz_nodes e')) =
         text_opened (map render (tikz_nodes e)) + 1
    /\ opening =
         times (py "    ") d
         ++ (if d =? 1
             then py "child[grow="
                  ++ str_of_nat (nth (angle_index e mod 6) LEVEL_1_ANGLES 0)
                  ++ py "] {"
             else py "child {")
         ++ [LF]
    /\ node = node_text d line.
Proof.
  cbn zeta. child_node e line B d Hd.
  exists (render (opening_chunk d (angle_index e))),
         (render (Concept d (safe_concept_of (fst (parse_line line))))).
  assert (T : render (opening_chunk d (angle_index e)) =
              times (py "    ") d
              ++ (if d =? 1
                  then py "child[grow="
                       ++ str_of_nat (nth (angle_index e mod 6) LEVEL_1_ANGLES 0)
                       ++ py "] {"
                  else py "child {")
              ++ [LF]
              /\ render (Concept d (safe_concept_of (fst (parse_line line)))) =
                 node_text d line).
  { unfold opening_chunk, node_text. rewrite safe_concept_chars.
    destruct (d =? 1); cbn [render]; now rewrite <- ?app_assoc. }
  destruct T as [T1 T2].
  rewrite <- T1, <- T2. clear T1 T2.
  assert (O : opens_of (opening_chunk d (angle_index e)) = 1
              /\ closes_of (opening_chunk d (angle_index e)) = 0).
  { unfold opening_chunk. now destruct (d =? 1). }
  rewrite !map_app. cbn [map].
  change (times (py "    ") d ++ times (py "} ") (current_depth e - d + 1) ++ [LF])
    with (render (Closing d (current_depth e - d + 1))).
  rewrite !text_opens_render, !text_closes_render, is_node_text_render.
  rewrite !text_opened_app, !text_closed_app.
  rewrite !text_opened_render, !text_closed_render.
  unfold closing_chunks.
  destruct (Nat.leb_spec d (current_depth e)) as [Hle|Hgt];
    cbn [map app opens_of closes_of concepts_of Nat.eqb];
    unfold text_opened, text_closed; cbn [map list_sum fold_right];
    rewrite ?text_opens_render, ?text_closes_render;
    cbn [opens_of closes_of];
    destruct O as [-> ->];
    repeat split; try lia; try reflexivity.
  unfold closed. cbn [map list_sum fold_right closes_of]. lia.
Qed.

Lemma close_phase_witness :
  exists opening node,
    map render (tikz_nodes (process_line (Emitter [] [] 3 1) (py "    B - back"))) =
      [py "    } } } " ++ [LF]; opening; node]
    /\ text_closes (py "    } } } " ++ [LF]) = 3
    /\ text_opens opening = 1.
Proof.
  destruct (close_phase (Emitter [] [] 3 1) (py "    B - back") eq_refl)
    as (opening & node & H1 & H2 & _ & H3 & _).
  exists opening, node. split; [exact H1|]. split; [exact H2|exact H3].
Defined.

(** ** Angles written *)

Section AnglesWritten.

Lemma render_branch c b : branch_of c = Some b -> render c = branch_text b.
Proof. destruct c; intros [= <-]; reflexivity. Qed.

Lemma is_opening_text_render c :
  is_opening_text (render c) =
    match branch_of c with Some _ => true | None => false end.
Proof.
  unfold is_opening_text. rewrite after_indent_render.
  destruct c as [d [|n]|d a|d|d s|[|n]]; reflexivity.
Qed.

Lemma indent_of_branch c b :
  branch_of c = Some b -> indent_of (render c) = 4 * fst b.
Proof. rewrite indent_of_render. destruct c; intros [= <-]; reflexivity. Qed.

Lemma one_level d : (4 * d =? 4) = (d =? 1).
Proof. destruct (Nat.eqb_spec (4 * d) 4), (Nat.eqb_spec d 1); lia. Qed.

Lemma top_level_texts_render cs :
  top_level_texts (map render cs) = map branch_text (top_level cs).
Proof.
  unfold top_level_texts, top_level.
  induction cs as [|c cs IH]; [reflexivity|].
  cbn [map filter branches]. rewrite is_opening_text_render, IH.
  destruct (branch_of c) as [b|] eqn:E; [|reflexivity].
  rewrite (indent_of_branch c E), one_level. cbn [andb filter].
  destruct (fst b =? 1); [|reflexivity].
  cbn [map]. now rewrite (render_branch c E).
Qed.

Lemma in_branches c b cs :
  In c cs -> branch_of c = Some b -> In b (branches cs).
Proof.
  intros H E. induction cs as [|x cs IH]; [contradiction|].
  cbn [branches]. destruct H as [->|H].
  - rewrite E. now left.
  - destruct (branch_of x); [right|]; now apply IH.
Qed.

End AnglesWritten.

(** C7. For every input, the k-th (from 0) string that opens a branch right
    under the root is the text [child[grow=A] {] indented by one level,
    where [A] is written in decimal and is the angle at position k mod 6
    of [150; 30; 270; 210; 90; 330]; every other string that opens a
    branch is the text [child {], without angle, indented by its depth,
    which is more than 1; the angle counter ends at the number of strings
    of the first kind. *)
Theorem angles_cycle (lines : list str) :
  let texts := tikz_texts lines in
  (forall k s,
     nth_error (top_level_texts texts) k = Some s ->
     s = py "    child[grow="
         ++ str_of_nat (nth (k mod 6) [150; 30; 270; 210; 90; 330] 0)
         ++ py "] {" ++ [LF])
  /\ (forall s,
        In s texts ->
        is_opening_text s = true ->
        (indent_of s =? 4) = false ->
        exists d, 1 < d /\ s = times (py "    ") d ++ py "child {" ++ [LF])
  /\ (forall e,
        run lines = Some e ->
        angle_index e = length (top_level_texts texts)).
Proof.
  cbn zeta. unfold tikz_texts. rewrite top_level_texts_render.
  destruct (angles_cycle_chunks lines) as (H1 & H2 & H3).
  split; [|split].
  - intros k s H. rewrite nth_error_map in H.
    destruct (nth_error (top_level (emitted lines)) k) as [b|] eqn:E;
      [|discriminate].
    injection H as <-. now rewrite (H1 k b E).
  - intros s Hin Ho Hi. apply in_map_iff in Hin as (c & <- & Hc).
    rewrite is_opening_text_render in Ho.
    destruct (branch_of c) as [b|] eqn:E; [|discriminate].
    rewrite (indent_of_branch c E), one_level in Hi.
    destruct (H2 b (in_branches c (emitted lines) Hc E)) as [Hd Hn].
    apply Nat.eqb_neq in Hi.
    exists (fst b). split; [lia|].
    rewrite (render_branch c E). unfold branch_text. rewrite Hn by lia.
    reflexivity.
  - intros e R. rewrite length_map. exact (H3 e R).
Qed.

Lemma angles_cycle_witness :
  let lines := py "Root" :: repeat (py "    Top") 7 ++ [py "        Sub"] in
  nth_error (top_level_texts (tikz_texts lines)) 6 =
    Some (py "    child[grow=150] {" ++ [LF])
  /\ py "    child[grow=150] {" ++ [LF] =
     py "    child[grow="
     ++ str_of_nat (nth (6 mod 6) [150; 30; 270; 210; 90; 330] 0)
     ++ py "] {" ++ [LF]
  /\ (exists d, 1 < d
        /\ py "        child {" ++ [LF] =
           times (py "    ") d ++ py "child {" ++ [LF])
  /\ exists e, run lines = Some e /\ angle_index e = 7.
Proof.
  intros lines.
  destruct (angles_cycle lines) as (H1 & H2 & H3).
  assert (T : nth_error (top_level_texts (tikz_texts lines)) 6 =
              Some (py "    child[grow=150] {" ++ [LF])) by reflexivity.
  split; [exact T|]. split; [exact (H1 6 _ T)|]. split.
  - apply H2; [|reflexivity|reflexivity].
    vm_compute. do 20 right. now left.
  - exists (fold_left process_line (tl lines) (after_root (py "Root"))).
    split; [reflexivity|].
    exact (eq_trans (H3 _ eq_refl) eq_refl).
Defined.

(** ** The scenario, as it is written *)

(** C3 (amended). With the indent width 4, the lines of the scenario indented
    by 2 and 4 spaces are all at depth 1: the depths are [0; 1; 1; 1], and
    the strings written open a branch for ChildA with the angle of index 0,
    close one branch and open one with the angle of index 1 for
    GrandchildA, close one branch and open one with the angle of index 2
    for ChildB, and close one branch at the end.  The depths [0; 1; 2; 1],
    the nested branch without angle, the two closings before ChildB, its
    angle of index 1 and the single final closing are those of the same
    outline indented by 4 and 8 spaces. *)
Theorem scenario_emission :
  let grow k :=
    py "    child[grow=" ++ str_of_nat (nth k LEVEL_1_ANGLES 0)
    ++ py "] {" ++ [LF] in
  node_depths scenario = [0; 1; 1; 1]
  /\ tikz_texts scenario =
       [grow 0; py "        node[concept] {ChildA}";
        py "    } " ++ [LF];
        grow 1; py "        node[concept] {GrandchildA}";
        py "    } " ++ [LF];
        grow 2; py "        node[concept] {ChildB}";
        py "} "]
  /\ node_depths scenario_by_four = [0; 1; 2; 1]
  /\ tikz_texts scenario_by_four =
       [grow 0; py "        node[concept] {ChildA}";
        py "        child {" ++ [LF];
        py "            node[concept] {GrandchildA}";
        py "    } } " ++ [LF];
        grow 1; py "        node[concept] {ChildB}";
        py "} "]
  /\ map grow [0; 1; 2] =
       [py "    child[grow=150] {" ++ [LF];
        py "    child[grow=30] {" ++ [LF];
        py "    child[grow=270] {" ++ [LF]]
  /\ map text_closes (tikz_texts scenario) = [0; 0; 1; 0; 0; 1; 0; 0; 1]
  /\ map text_closes (tikz_texts scenario_by_four) = [0; 0; 0; 0; 2; 0; 0; 1].
Proof. repeat split. Qed.

(** ** One branch for each child, in the text *)

Section NodesWritten.

Lemma node_texts_render cs :
  node_texts (map render cs) =
    map render (filter (fun c => concepts_of c =? 1) cs).
Proof.
  unfold node_texts. rewrite filter_map_swap. f_equal.
  apply filter_ext. intros c. apply is_node_text_render.
Qed.

Lemma concept_chunks_closing c d :
  filter (fun x => concepts_of x =? 1) (closing_chunks c d) = [].
Proof. unfold closing_chunks. now destruct (d <=? c). Qed.

Lemma concept_chunks_opening d k s :
  filter (fun x => concepts_of x =? 1) [opening_chunk d k; Concept d s] =
    [Concept d s].
Proof. unfold opening_chunk. now destruct (d =? 1). Qed.

Lemma concept_chunks_fold lines : forall e,
  filter (fun x => concepts_of x =? 1)
    (tikz_nodes (fold_left process_line lines e)) =
    filter (fun x => concepts_of x =? 1) (tikz_nodes e)
    ++ map (fun p => Concept (fst p) (safe_concept_of (fst (parse_line (snd p)))))
         (combine (clamped_depths (current_depth e) (non_blank_lines lines))
                  (non_blank_lines lines)).
Proof.
  induction lines as [|l ls IH]; intros e; cbn [fold_left].
  - cbn. now rewrite app_nil_r.
  - rewrite IH, non_blank_lines_cons. destruct (is_blank l) eqn:B.
    + now rewrite process_line_blank.
    + rewrite (process_line_node e l B).
      cbn [tikz_nodes current_depth clamped_depths combine map fst snd].
      rewrite !filter_app, concept_chunks_closing, concept_chunks_opening.
      cbn [app]. now rewrite <- app_assoc.
Qed.

Lemma concept_chunks_close_remaining e :
  filter (fun x => concepts_of x =? 1) (close_remaining e) =
    filter (fun x => concepts_of x =? 1) (tikz_nodes e).
Proof.
  unfold close_remaining. destruct (0 <? current_depth e); [|reflexivity].
  rewrite filter_app. cbn. apply app_nil_r.
Qed.

Lemma concept_chunks_length cs :
  length (filter (fun x => concepts_of x =? 1) cs) =
    length (concept_depths cs).
Proof.
  induction cs as [|c cs IH]; [reflexivity|].
  destruct c; cbn; now rewrite ?IH.
Qed.

End NodesWritten.

(** X12. Each non-blank line after the first writes exactly one string
    that opens a branch and the content of one node, the closing braces
    written are as many, and the table has one row more: the row of the
    first line. *)
Theorem one_branch_per_child (line0 : str) (rest : list str) :
  let texts := tikz_texts (line0 :: rest) in
  let children := length (non_blank_lines rest) in
  text_opened texts = children
  /\ text_closed texts = children
  /\ length (node_texts texts) = children
  /\ length (table_rows (table_of (line0 :: rest))) = children + 1.
Proof.
  cbn zeta. unfold tikz_texts.
  rewrite text_opened_render, text_closed_render, node_texts_render.
  rewrite length_map, concept_chunks_length.
  exact (chunks_per_child line0 rest).
Qed.

(** X15. The contents of the nodes written for the children are, in the
    order of the input, those of the non-blank lines after the first: for
    each, the text [node[concept] {], the escaped label of the line and a
    closing brace, indented by one level more than the depth of the
    node. *)
Theorem nodes_in_order (line0 : str) (rest : list str) :
  let kept := non_blank_lines rest in
  node_texts (tikz_texts (line0 :: rest)) =
    map (fun p => node_text (fst p) (snd p))
        (combine (clamped_depths 0 kept) kept).
Proof.
  cbn zeta. unfold tikz_texts, emitted. rewrite run_cons.
  rewrite node_texts_render, concept_chunks_close_remaining.
  rewrite concept_chunks_fold. cbn [after_root tikz_nodes filter app current_depth].
  rewrite map_map. apply map_ext. intros p. unfold node_text.
  cbn [render]. now rewrite safe_concept_chars.
Qed.

(** X16. In the strings written for every input, the content of a node
    comes where exactly as many branches are open, counting the branches
    that the strings before it open and close, as its depth, which is one
    level less than its indentation: each node lies inside its own branch,
    inside the branches of the nodes above it; no string before it closes
    a branch that is not open.  There is one such content for each
    non-blank line after the first. *)
Theorem node_inside_its_branches (lines : list str) pre s post :
  tikz_texts lines = pre ++ s :: post ->
  is_node_text s = true ->
  text_nesting 0 pre = Some (indent_of s / 4 - 1)
  /\ length (node_texts (tikz_texts lines)) =
     length (non_blank_lines (tl lines)).
Proof.
  intros H N. split.
  2:{ destruct lines as [|line0 rest].
      - destruct pre; discriminate H.
      - unfold tikz_texts.
        rewrite node_texts_render, length_map, concept_chunks_length.
        exact (proj1 (proj2 (proj2 (chunks_per_child line0 rest)))). }
  unfold tikz_texts in H.
  apply map_eq_app in H as (cpre & ctail & E & <- & Ht).
  apply map_eq_cons in Ht as (c & cpost & -> & <- & _).
  rewrite is_node_text_render in N.
  destruct c as [d n|d a|d|d l|n]; try discriminate N.
  rewrite text_nesting_render, (nodes_nested_emitted lines _ _ _ _ E).
  rewrite indent_of_render. f_equal.
  replace (4 * (d + 1)) with ((d + 1) * 4) by lia.
  rewrite Nat.div_mul by discriminate. lia.
Qed.

Lemma node_inside_its_branches_witness :
  tikz_texts scenario_by_four =
    [py "    child[grow=150] {" ++ [LF]; py "        node[concept] {ChildA}";
     py "        child {" ++ [LF]]
    ++ py "            node[concept] {GrandchildA}"
    :: [py "    } } " ++ [LF]; py "    child[grow=30] {" ++ [LF];
        py "        node[concept] {ChildB}"; py "} "]
  /\ text_nesting 0
       [py "    child[grow=150] {" ++ [LF]; py "        node[concept] {ChildA}";
        py "        child {" ++ [LF]] = Some 2.
Proof.
  assert (E : tikz_texts scenario_by_four =
    [py "    child[grow=150] {" ++ [LF]; py "        node[concept] {ChildA}";
     py "        child {" ++ [LF]]
    ++ py "            node[concept] {GrandchildA}"
    :: [py "    } } " ++ [LF]; py "    child[grow=30] {" ++ [LF];
        py "        node[concept] {ChildB}"; py "} "]) by reflexivity.
  split; [exact E|].
  exact (proj1 (node_inside_its_branches scenario_by_four _ _ _ E eq_refl)).
Defined.

(** ** Descriptions and the text outside the table *)

Section Variant.

Lemma same_rstrip_alike a b :
  is_blank a = false -> rstrip a = rstrip b -> parsed_alike a b.
Proof.
  intros Ba E.
  assert (Bb : is_blank b = false).
  { rewrite <- is_blank_rstrip, <- E, is_blank_rstrip. exact Ba. }
  split.
  - now rewrite <- (parse_line_rstrip a), <- (parse_line_rstrip b), E.
  - rewrite <- (indentation_rstrip a Ba), <- (indentation_rstrip b Bb).
    now rewrite E.
Qed.

Lemma rstrip_blank_description prefix d :
  is_blank d = true ->
  rstrip (prefix ++ py " - " ++ d) = rstrip (prefix ++ py " -").
Proof.
  intros B.
  replace (prefix ++ py " - " ++ d) with ((prefix ++ py " -") ++ SPACE :: d).
  - apply rstrip_app_blank. rewrite is_blank_cons. exact B.
  - now rewrite <- app_assoc.
Qed.

Lemma description_variant_alike a b :
  description_variant a b -> parsed_alike a b.
Proof.
  intros [->|(prefix & d1 & d2 & -> & -> & Bp & Bd)]; [now split|].
  destruct (is_blank d2) eqn:B2.
  - apply same_rstrip_alike.
    + rewrite is_blank_app, Bp. reflexivity.
    + now rewrite !rstrip_blank_description.
  - now apply parsed_alike_variants.
Qed.

End Variant.

(** Two inputs that differ in the text after the first delimiter of one
    line only, and yet do not write the same node: the description of the
    second is blank, and the end of the delimiter goes with it. *)
Lemma blank_description_changes_nodes :
  Forall2 (fun a b => a = b \/ differs_after_delimiter a b)
          with_description with_blank_description
  /\ tikz_texts with_description <> tikz_texts with_blank_description
  /\ concat (tikz_texts with_description)
     <> concat (tikz_texts with_blank_description).
Proof.
  split; [|split].
  - constructor; [now left|]. constructor; [|constructor].
    right. exists (py "    A"), (py "x"), []. now repeat split.
  - vm_compute. discriminate.
  - vm_compute. discriminate.
Qed.

(** C10 (amended). Two inputs of the same length whose corresponding lines
    are equal, or are one text that is not blank followed by the delimiter
    and by two descriptions that are both blank or both not blank, write
    the same strings for the branches and the same labels in the table:
    the two documents are one text before the table block and one text
    after it, and differ at most in the table block. *)
Theorem descriptions_only_in_table (lines1 lines2 : list str) :
  Forall2 description_variant lines1 lines2 ->
  tikz_texts lines1 = tikz_texts lines2
  /\ map node (table_of lines1) = map node (table_of lines2)
  /\ exists before after,
       generate_tikz_code lines1 = before ++ table_block lines1 ++ after
       /\ generate_tikz_code lines2 = before ++ table_block lines2 ++ after.
Proof.
  intros H.
  assert (A : Forall2 parsed_alike lines1 lines2).
  { induction H as [|a b l1 l2 Hab _ IH]; constructor; [|exact IH].
    now apply description_variant_alike. }
  destruct (parsed_alike_output A) as (E & T & D).
  unfold tikz_texts. rewrite E. now repeat split.
Qed.

Lemma descriptions_only_in_table_witness :
  let lines1 := [py "Root - first"; py "    A - x"; py "";
                 py "        B - "; py "C_d - 100%"] in
  let lines2 := [py "Root - second - more"; py "    A - other"; py "";
                 py "        B -   "; py "C_d - 7"] in
  Forall2 description_variant lines1 lines2
  /\ tikz_texts lines1 = tikz_texts lines2
  /\ table_block lines1 <> table_block lines2.
Proof.
  intros lines1 lines2.
  assert (H : Forall2 description_variant lines1 lines2).
  { constructor; [|constructor; [|constructor;
      [|constructor; [|constructor; [|constructor]]]]].
    - right. exists (py "Root"), (py "first"), (py "second - more").
      now repeat split.
    - right. exists (py "    A"), (py "x"), (py "other"). now repeat split.
    - now left.
    - right. exists (py "        B"), [], (py "  "). now repeat split.
    - right. exists (py "C_d"), (py "100%"), (py "7"). now repeat split. }
  destruct (descriptions_only_in_table H) as (He & _ & _).
  split; [exact H|]. split; [exact He|].
  vm_compute. discriminate.
Defined.
